(** * Outline reconstruction: pcbnew/convert_drawsegment_list_to_polygon.cpp

    A shallow embedding of [findPoint], [ConvertOutlineToPolygon],
    [BuildBoardPolygonOutlines], [buildBoardBoundingBoxPoly],
    [isCopperOutside], [projectPointOnSegment] and
    [BuildFootprintPolygonOutlines], the properties of the outline
    specification that can be settled on them, and further properties
    read off the code.

    Integers of the source ([int], [unsigned]) are values of [Z] with the
    32-bit wrap-around written out where the source does arithmetic on
    them.  The working pool ([std::vector<DRAWSEGMENT*>]) is a list, read
    with [!!] and erased with [delete]; an index past the end of the vector
    is an outcome of its own ([BadIndex], [OutOfRange]), and so is a
    contour of the polygon set that [Hole( 0, holeNum )] names and that is
    not there. *)

From Stdlib Require Import ZArith QArith Lia.
From stdpp Require Import base option list numbers.

#[local] Open Scope Z_scope.

(** ** Machine integers *)

Definition INT_MAX : Z := 2147483647.

(** Two's complement wrap-around of a 32-bit [int]. *)
Definition int_wrap (z : Z) : Z := (z + 2 ^ 31) `mod` 2 ^ 32 - 2 ^ 31.

(** Conversion of an [int] to [unsigned]. *)
Definition to_unsigned (z : Z) : Z := z `mod` 2 ^ 32.

Definition int_add (a b : Z) : Z := int_wrap (a + b).
Definition int_sub (a b : Z) : Z := int_wrap (a - b).
Definition int_abs (a : Z) : Z := int_wrap (Z.abs a).

(** ** Points *)

(** [wxPoint] / [VECTOR2I]: a pair of [int] coordinates. *)
Definition Point : Type := Z * Z.

Definition Point_eqb (a b : Point) : bool :=
  (a.1 =? b.1) && (a.2 =? b.2).

(** The distance of the specification: [|dx| + |dy|]. *)
Definition manhattan (a b : Point) : Z :=
  Z.abs (a.1 - b.1) + Z.abs (a.2 - b.2).

(** [close_ness]: [unsigned( std::abs( aLeft.x - aRight.x ) +
    abs( aLeft.y - aRight.y ) )]. *)
Definition close_ness (aLeft aRight : Point) : Z :=
  to_unsigned (int_add (int_abs (int_sub aLeft.1 aRight.1))
                       (int_abs (int_sub aLeft.2 aRight.2))).

(** [close_enough]. *)
Definition close_enough (aLeft aRight : Point) (aLimit : Z) : bool :=
  close_ness aLeft aRight <=? aLimit.

(** [close_st]. *)
Definition close_st (aReference aFirst aSecond : Point) : bool :=
  close_ness aReference aFirst <=? close_ness aReference aSecond.

(** ** Graphic primitives *)

Inductive STROKE_T : Type :=
  | S_SEGMENT | S_RECT | S_ARC | S_CIRCLE | S_POLYGON | S_CURVE.

Definition STROKE_T_eqb (a b : STROKE_T) : bool :=
  match a, b with
  | S_SEGMENT, S_SEGMENT | S_RECT, S_RECT | S_ARC, S_ARC
  | S_CIRCLE, S_CIRCLE | S_POLYGON, S_POLYGON | S_CURVE, S_CURVE => true
  | _, _ => false
  end.

(** Modelled from the spec: SHAPE_LINE_CHAIN and SHAPE_POLY_SET
    (geometry/shape_poly_set.h is not among the sources).  A contour is an
    ordered sequence of points with a closed mark; a polygon is an outline
    followed by its holes; a polygon set is a sequence of polygons. *)
Record SHAPE_LINE_CHAIN : Type := mkChain {
  CPoints : list Point;
  IsClosed : bool
}.

Definition POLYGON : Type := list SHAPE_LINE_CHAIN.
Definition SHAPE_POLY_SET : Type := list POLYGON.

(** Modelled from the spec: the placement of a parent footprint (MODULE,
    class_module.h is not among the sources), read as an orientation and a
    position. *)
Record MODULE : Type := mkModule {
  GetOrientation : Q;
  MGetPosition : Point
}.

(** Modelled from the spec: DRAWSEGMENT (class_drawsegment.h is not among
    the sources), as the read-only shape queries the engine makes.
    [GetBezierPoints] is the point list left by
    [RebuildBezierToSegmentsPointsList( GetWidth() )], which the start-point
    scan runs on every curve before any of them is walked. *)
Record DRAWSEGMENT : Type := mkDrawSegment {
  GetShape : STROKE_T;
  GetStart : Point;
  GetEnd : Point;
  GetArcStart : Point;
  GetArcEnd : Point;
  GetCenter : Point;
  GetRadius : Z;
  GetAngle : Q;
  GetWidth : Z;
  GetBezierPoints : list Point;
  GetPolyShape : SHAPE_POLY_SET;
  GetRectCorners : list Point;
  GetParentModule : option MODULE;
  GetPosition : Point
}.

(** ** findPoint *)

(** The two points [findPoint] compares with [aPoint]. *)
Definition endpoints (graphic : DRAWSEGMENT) : Point * Point :=
  match GetShape graphic with
  | S_ARC => (GetArcStart graphic, GetArcEnd graphic)
  | _ => (GetStart graphic, GetEnd graphic)
  end.

(** The scan of [findPoint] from index [i] on, over the primitives not yet
    visited: [inl i] is the early return on an exact match at [i], [inr]
    gives [min_d] and [ndx_min] after the last primitive. *)
Fixpoint findPoint_loop (aPoint : Point) (rest : list DRAWSEGMENT)
    (i : nat) (min_d : Z) (ndx_min : nat) : nat + Z * nat :=
  match rest with
  | [] => inr (min_d, ndx_min)
  | graphic :: rest' =>
      let '(p1, p2) := endpoints graphic in
      if Point_eqb aPoint p1 || Point_eqb aPoint p2 then inl i
      else
        let d1 := close_ness aPoint p1 in
        let '(min_d1, ndx_min1) :=
          if d1 <? min_d then (d1, i) else (min_d, ndx_min) in
        let d2 := close_ness aPoint p2 in
        let '(min_d2, ndx_min2) :=
          if d2 <? min_d1 then (d2, i) else (min_d1, ndx_min1) in
        findPoint_loop aPoint rest' (S i) min_d2 ndx_min2
  end.

(** What a call of [findPoint] does: it returns [graphic] and leaves the
    pool [aList'], it returns NULL and leaves the pool as it was, or it
    reads [aList[i]] with [i] past the end of the vector, which the source
    leaves undefined. *)
Inductive find_result : Type :=
  | Found (graphic : DRAWSEGMENT) (aList' : list DRAWSEGMENT)
  | NotFound
  | BadIndex.

(** [aList[i]] followed by [aList.erase( aList.begin() + i )]. *)
Definition take_at (aList : list DRAWSEGMENT) (i : nat) : find_result :=
  match aList !! i with
  | Some graphic => Found graphic (delete i aList)
  | None => BadIndex
  end.

Definition findPoint (aPoint : Point) (aList : list DRAWSEGMENT)
    (aLimit : Z) : find_result :=
  match findPoint_loop aPoint aList 0 INT_MAX 0 with
  | inl i => take_at aList i
  | inr (min_d, ndx_min) =>
      if min_d <=? aLimit then take_at aList ndx_min else NotFound
  end.

(** ** Polygon sets *)

(** Modelled from the spec: the operations of SHAPE_POLY_SET the engine
    calls (geometry/shape_poly_set.h is not among the sources).  A new
    contour is closed and empty; [Append] pushes a point at the end of a
    contour of the last polygon, which the engine has always made before
    it appends to it. *)
Definition empty_chain : SHAPE_LINE_CHAIN := mkChain [] true.

Definition chain_append (pt : Point) (c : SHAPE_LINE_CHAIN) : SHAPE_LINE_CHAIN :=
  mkChain (CPoints c ++ [pt]) (IsClosed c).

Definition SetClosed (aClosed : bool) (c : SHAPE_LINE_CHAIN) : SHAPE_LINE_CHAIN :=
  mkChain (CPoints c) aClosed.

Definition OutlineCount (ps : SHAPE_POLY_SET) : nat := length ps.

Definition HoleCount (ps : SHAPE_POLY_SET) (aOutline : nat) : nat :=
  match ps !! aOutline with
  | Some poly => pred (length poly)
  | None => O
  end.

Definition RemoveAllContours (ps : SHAPE_POLY_SET) : SHAPE_POLY_SET := [].

Definition NewOutline (ps : SHAPE_POLY_SET) : SHAPE_POLY_SET :=
  ps ++ [[empty_chain]].

(** [NewHole()]: a new hole in the last polygon, and its index there. *)
Definition NewHole (ps : SHAPE_POLY_SET) : SHAPE_POLY_SET * Z :=
  (alter (fun poly => poly ++ [empty_chain]) (pred (length ps)) ps,
   match ps !! pred (length ps) with
   | Some poly => Z.of_nat (length poly) - 1
   | None => -1
   end).

(** [Append( pt, -1, aHole )]: [aHole < 0] is the outline. *)
Definition Append (pt : Point) (aHole : Z) (ps : SHAPE_POLY_SET) : SHAPE_POLY_SET :=
  let idx := if aHole <? 0 then 0 else aHole + 1 in
  alter (alter (chain_append pt) (Z.to_nat idx)) (pred (length ps)) ps.

Definition AppendAll (pts : list Point) (aHole : Z) (ps : SHAPE_POLY_SET)
    : SHAPE_POLY_SET :=
  foldl (fun acc pt => Append pt aHole acc) ps pts.

(** [Hole( aOutline, aHole ).SetClosed( aClosed )]: the contour
    [aHole + 1] of polygon [aOutline] is marked; [None] when there is no
    such polygon or no such contour in it, an index past the end of a
    vector in the source. *)
Definition Hole_SetClosed (aOutline : nat) (aHole : Z) (aClosed : bool)
    (ps : SHAPE_POLY_SET) : option SHAPE_POLY_SET :=
  match ps !! aOutline with
  | Some poly =>
      match poly !! Z.to_nat (aHole + 1) with
      | Some _ =>
          Some (alter (alter (SetClosed aClosed) (Z.to_nat (aHole + 1)))
                      aOutline ps)
      | None => None
      end
  | None => None
  end.

Definition outline_points (poly : POLYGON) : list Point :=
  match poly with
  | c :: _ => CPoints c
  | [] => []
  end.

(** [CIterate()]: the outline vertices of every polygon, holes left out. *)
Definition CIterate (ps : SHAPE_POLY_SET) : list Point :=
  concat (map outline_points ps).

(** [CIterate( 0 )]: the vertices of the first outline. *)
Definition CIterate0 (ps : SHAPE_POLY_SET) : list Point :=
  match ps with
  | poly :: _ => outline_points poly
  | [] => []
  end.

(** [SEG]: the two ends [A] and [B]. *)
Definition SEG : Type := Point * Point.

Definition SEG_eqb (s1 s2 : SEG) : bool :=
  Point_eqb s1.1 s2.1 && Point_eqb s1.2 s2.2.

(** The segments of a contour: consecutive points, and for a closed
    contour the segment from the last point back to the first. *)
Definition chain_segments (c : SHAPE_LINE_CHAIN) : list SEG :=
  match CPoints c with
  | [] => []
  | p0 :: tl => zip (CPoints c) (if IsClosed c then tl ++ [p0] else tl)
  end.

(** [IterateSegmentsWithHoles()]. *)
Definition IterateSegmentsWithHoles (ps : SHAPE_POLY_SET) : list SEG :=
  concat (map (fun poly : POLYGON => concat (map chain_segments poly)) ps).

Definition cross (a b : Point) : Z := a.1 * b.2 - a.2 * b.1.

(** Modelled from the spec: SEG::Intersect with [aIgnoreEndpoints = true]
    (geometry/seg.h is not among the sources): the point where two segments
    truly cross, none for parallel segments, for segments that do not
    reach each other, and for segments that only share an end point. *)
Definition SEG_Intersect (s1 s2 : SEG) : option Point :=
  let e : Point := (s1.2.1 - s1.1.1, s1.2.2 - s1.1.2) in
  let f : Point := (s2.2.1 - s2.1.1, s2.2.2 - s2.1.2) in
  let ac : Point := (s2.1.1 - s1.1.1, s2.1.2 - s1.1.2) in
  let d := cross f e in
  let p := cross f ac in
  let q := cross e ac in
  if d =? 0 then None
  else if (0 <? d) && ((q <? 0) || (d <? q) || (p <? 0) || (d <? p)) then None
  else if (d <? 0) && ((q <? d) || (p <? d) || (0 <? p) || (0 <? q)) then None
  else if ((q =? 0) || (q =? d)) && ((p =? 0) || (p =? d)) then None
  else Some (s2.1.1 + (q * f.1) `quot` d, s2.1.2 + (q * f.2) `quot` d).

(** ** Geometry taken from outside *)

(** The floating-point helpers of trigo.h, geometry_utils.h and
    convert_basic_shapes_to_polygon.h, none of them among the sources, are
    taken as they are called:
    - [ArcSegmentCount r t a] is
      [GetArcToSegmentCount( r, t, a / 10.0 )], [a] in tenths of a degree;
    - [RotateStep pt c a step steps] is [pt] after
      [rotation = ( a * step ) / steps; RotatePoint( &pt, c, rotation )];
    - [RotatePoint pt a] is [pt] after [RotatePoint( pt, a )];
    - [CircleRing c r t] is the ring of points that
      [TransformCircleToPolygon] makes of the circle of centre [c] and
      radius [r] within the error [t];
    - [Millimeter2iu_1] is [Millimeter2iu( 1.0 )]. *)
Record GEOMETRY : Type := mkGeometry {
  ArcSegmentCount : Z -> Z -> Q -> Z;
  RotateStep : Point -> Point -> Q -> Z -> Z -> Point;
  RotatePoint : Point -> Q -> Point;
  CircleRing : Point -> Z -> Z -> list Point;
  Millimeter2iu_1 : Z
}.

(** Modelled from the spec: TransformCircleToPolygon
    (convert_basic_shapes_to_polygon.h is not among the sources), which
    emits the circle as a new outline: the ring of its points. *)
Definition TransformCircleToPolygon (G : GEOMETRY) (ps : SHAPE_POLY_SET)
    (aCenter : Point) (aRadius aError : Z) : SHAPE_POLY_SET :=
  AppendAll (CircleRing G aCenter aRadius aError) (-1) (NewOutline ps).

(** ** ConvertOutlineToPolygon *)

(** What the function appends to [*aErrorText]; the caller is taken to
    pass both [aErrorText] and [aErrorLocation]. *)
Inductive message : Type :=
  | UnsupportedType (shape : STROKE_T)
  | UnableToFindEdge (prevPt : Point).

(** The variables of one call: the output set, the working pool, the text
    and location handed back to the caller ([None]: not written), the
    return value in waiting, and two counters that are not in the source:
    the iterations of the chain-walk loops [for(;;)] and of the hole loop
    [while( segList.size() )] run so far. *)
Record state : Type := mkState {
  aPolygons : SHAPE_POLY_SET;
  segList : list DRAWSEGMENT;
  aErrorText : list message;
  aErrorLocation : option Point;
  polygonComplete : bool;
  walk_iterations : nat;
  hole_iterations : nat
}.

Definition set_polygons (ps : SHAPE_POLY_SET) (st : state) : state :=
  mkState ps (segList st) (aErrorText st) (aErrorLocation st)
          (polygonComplete st) (walk_iterations st) (hole_iterations st).

Definition set_segList (l : list DRAWSEGMENT) (st : state) : state :=
  mkState (aPolygons st) l (aErrorText st) (aErrorLocation st)
          (polygonComplete st) (walk_iterations st) (hole_iterations st).

Definition report (msg : message) (loc : Point) (st : state) : state :=
  mkState (aPolygons st) (segList st) (aErrorText st ++ [msg]) (Some loc)
          (polygonComplete st) (walk_iterations st) (hole_iterations st).

Definition set_incomplete (st : state) : state :=
  mkState (aPolygons st) (segList st) (aErrorText st) (aErrorLocation st)
          false (walk_iterations st) (hole_iterations st).

Definition set_location (loc : Point) (st : state) : state :=
  mkState (aPolygons st) (segList st) (aErrorText st) (Some loc)
          (polygonComplete st) (walk_iterations st) (hole_iterations st).

Definition tick_walk (st : state) : state :=
  mkState (aPolygons st) (segList st) (aErrorText st) (aErrorLocation st)
          (polygonComplete st) (S (walk_iterations st)) (hole_iterations st).

Definition tick_hole (st : state) : state :=
  mkState (aPolygons st) (segList st) (aErrorText st) (aErrorLocation st)
          (polygonComplete st) (walk_iterations st) (S (hole_iterations st)).

(** How a part of the function ends: it falls through to the code after
    it, it executes [return false], it indexes the pool or the contours
    of a polygon past their end, or the model ran out of the fuel it was
    given. *)
Inductive outcome : Type :=
  | Normal (st : state)
  | ReturnFalse (st : state)
  | OutOfRange
  | OutOfFuel.

(** How the whole call ends. *)
Inductive result : Type :=
  | Returned (value : bool) (st : state)
  | Undefined
  | Diverged.

(** [if( pt.x < xmin.x ) { xmin = pt; xmini = i; }] *)
Definition xmin_update (i : nat) (acc : Point * nat) (pt : Point) : Point * nat :=
  if pt.1 <? acc.1.1 then (pt, i) else acc.

(** The orientation and offset read from a parent footprint. *)
Definition placement (module : option MODULE) : Q * Point :=
  match module with
  | Some m => (GetOrientation m, MGetPosition m)
  | None => (0%Q, (0, 0))
  end.

Section Engine.

Context (G : GEOMETRY).

(** [RotatePoint( pt, orientation ); pt += offset;] *)
Definition place (module : option MODULE) (pt : Point) : Point :=
  let '(orientation, offset) := placement module in
  let pt' := RotatePoint G pt orientation in
  (int_add pt'.1 offset.1, int_add pt'.2 offset.2).

(** The points of an arc, [step = 1 .. steps], in the order of the loop. *)
Definition arc_points (pstart pcenter : Point) (angle : Q) (steps : Z)
    : list Point :=
  map (fun step : nat => RotateStep G pstart pcenter angle (Z.of_nat step) steps)
      (seq 1 (Z.to_nat steps)).

(** One turn of the start-point scan: the [switch] on the shape of
    [segList[i]]. *)
Definition scan_graphic (aSegList : list DRAWSEGMENT) (aTolerance : Z)
    (i : nat) (graphic : DRAWSEGMENT) (acc : Point * nat) : Point * nat :=
  match GetShape graphic with
  | S_RECT | S_SEGMENT =>
      xmin_update i (xmin_update i acc (GetStart graphic)) (GetEnd graphic)
  | S_ARC =>
      let pstart := GetArcStart graphic in
      let center := GetCenter graphic in
      let angle := Qopp (GetAngle graphic) in
      let radius := GetRadius graphic in
      let steps := ArcSegmentCount G radius aTolerance angle in
      foldl (xmin_update i) acc (arc_points pstart center angle steps)
  | S_CIRCLE =>
      let pt : Point :=
        (int_sub (GetCenter graphic).1 (GetRadius graphic), (GetCenter graphic).2) in
      if (0 <? GetRadius graphic) && (pt.1 <? acc.1.1) then (pt, i) else acc
  | S_CURVE => foldl (xmin_update i) acc (GetBezierPoints graphic)
  | S_POLYGON =>
      let module := GetParentModule <$> (aSegList !! O) in
      foldl (xmin_update i) acc
            (map (place (mjoin module)) (CIterate (GetPolyShape graphic)))
  end.

(** The scan from index [i] on. *)
Fixpoint scan_from (aSegList : list DRAWSEGMENT) (aTolerance : Z)
    (rest : list DRAWSEGMENT) (i : nat) (acc : Point * nat) : Point * nat :=
  match rest with
  | [] => acc
  | graphic :: rest' =>
      scan_from aSegList aTolerance rest' (S i)
                (scan_graphic aSegList aTolerance i graphic acc)
  end.

(** [xmin] and [xmini] after the scan. *)
Definition find_xmin (aSegList : list DRAWSEGMENT) (aTolerance : Z) : Point * nat :=
  scan_from aSegList aTolerance aSegList 0 ((INT_MAX, 0), O).

(** The [switch] inside a chain walk: the points of [graphic] go to the
    outline ([aHole < 0]) or to hole [aHole], and [prevPt] moves on.
    [None] is the [default:] case. *)
Definition consume (aTolerance : Z) (aHole : Z) (graphic : DRAWSEGMENT)
    (prevPt : Point) (ps : SHAPE_POLY_SET) : option (Point * SHAPE_POLY_SET) :=
  match GetShape graphic with
  | S_SEGMENT =>
      let nextPt :=
        if close_st prevPt (GetStart graphic) (GetEnd graphic)
        then GetEnd graphic else GetStart graphic in
      Some (nextPt, Append nextPt aHole ps)
  | S_ARC =>
      let pstart := GetArcStart graphic in
      let pend := GetArcEnd graphic in
      let pcenter := GetCenter graphic in
      let angle := Qopp (GetAngle graphic) in
      let radius := GetRadius graphic in
      let steps := ArcSegmentCount G radius aTolerance angle in
      let '(angle', pstart') :=
        if negb (close_enough prevPt pstart aTolerance)
        then (Qopp angle, pend) else (angle, pstart) in
      let pts := arc_points pstart' pcenter angle' steps in
      Some (List.last pts (0, 0), AppendAll pts aHole ps)
  | S_CURVE =>
      let reverse := negb (close_st prevPt (GetStart graphic) (GetEnd graphic)) in
      let nextPt := if reverse then GetStart graphic else GetEnd graphic in
      let pts :=
        if reverse then rev (GetBezierPoints graphic)
        else GetBezierPoints graphic in
      Some (nextPt, AppendAll pts aHole ps)
  | _ => None
  end.

(** The loop [for(;;)] of a chain walk, entered with [graphic], [startPt]
    and [prevPt]; [holeNum] is [None] in the walk of the outline and the
    pair [(hole, holeNum)] in the walk of a hole. *)
Fixpoint chain_walk (fuel : nat) (aTolerance : Z) (holeNum : option (Z * Z))
    (startPt : Point) (graphic : DRAWSEGMENT) (prevPt : Point) (st : state)
    : outcome :=
  match fuel with
  | O => OutOfFuel
  | S fuel' =>
      let st := tick_walk st in
      let aHole := match holeNum with Some (hole, _) => hole | None => -1 end in
      match consume aTolerance aHole graphic prevPt (aPolygons st) with
      | None =>
          ReturnFalse (report (UnsupportedType (GetShape graphic))
                              (GetPosition graphic) st)
      | Some (prevPt', ps) =>
          let st := set_polygons ps st in
          match findPoint prevPt' (segList st) aTolerance with
          | Found graphic' segList' =>
              chain_walk fuel' aTolerance holeNum startPt graphic' prevPt'
                         (set_segList segList' st)
          | NotFound =>
              if close_enough startPt prevPt' aTolerance then Normal st
              else
                let st := report (UnableToFindEdge prevPt') prevPt' st in
                match holeNum with
                | Some (_, n) =>
                    match Hole_SetClosed 0 n false (aPolygons st) with
                    | Some ps' => Normal (set_incomplete (set_polygons ps' st))
                    | None => OutOfRange
                    end
                | None => Normal (set_incomplete st)
                end
          | BadIndex => OutOfRange
          end
      end
  end.

(** The points of a circle emitted as a hole, [step = 0 .. steps - 1]. *)
Definition circle_points (center : Point) (radius steps : Z) : list Point :=
  let start : Point := (int_add center.1 radius, center.2) in
  map (fun step : nat => RotateStep G start center 3600%Q (Z.of_nat step) steps)
      (seq 0 (Z.to_nat steps)).

(** The loop [while( segList.size() )]; [holeNum] is its value on entry. *)
Fixpoint hole_loop (fuel : nat) (aTolerance : Z) (holeNum : Z) (st : state)
    : outcome :=
  match segList st with
  | [] => Normal st
  | graphic :: segList' =>
      match fuel with
      | O => OutOfFuel
      | S fuel' =>
          let '(ps, hole) := NewHole (aPolygons st) in
          let holeNum := holeNum + 1 in
          let st := tick_hole (set_segList segList' (set_polygons ps st)) in
          match GetShape graphic with
          | S_POLYGON =>
              let pts := map (place (GetParentModule graphic))
                             (CIterate (GetPolyShape graphic)) in
              hole_loop fuel' aTolerance holeNum
                        (set_polygons (AppendAll pts hole (aPolygons st)) st)
          | S_CIRCLE =>
              let radius := GetRadius graphic in
              let steps := ArcSegmentCount G radius aTolerance 3600%Q in
              let pts := circle_points (GetCenter graphic) radius steps in
              hole_loop fuel' aTolerance holeNum
                        (set_polygons (AppendAll pts hole (aPolygons st)) st)
          | S_RECT =>
              hole_loop fuel' aTolerance holeNum
                        (set_polygons
                           (AppendAll (GetRectCorners graphic) hole (aPolygons st)) st)
          | _ =>
              let startPt := GetEnd graphic in
              let st := set_polygons (Append startPt hole (aPolygons st)) st in
              match chain_walk (S (length (segList st))) aTolerance
                               (Some (hole, holeNum)) startPt graphic startPt st with
              | Normal st' => hole_loop fuel' aTolerance holeNum st'
              | other => other
              end
          end
      end
  end.

(** The loop over [seg2] for one [seg1]: the location written before
    [return false], if a pair is rejected. *)
Fixpoint check_against (seg1 : SEG) (rest : list SEG) : option Point :=
  match rest with
  | [] => None
  | seg2 :: rest' =>
      if SEG_eqb seg1 seg2
         || (Point_eqb seg1.1 seg2.2 && Point_eqb seg1.2 seg2.1)
      then Some seg1.1
      else
        match SEG_Intersect seg1 seg2 with
        | Some pt => Some pt
        | None => check_against seg1 rest'
        end
  end.

(** The loop over [seg1]. *)
Fixpoint check_segments (segs : list SEG) : option Point :=
  match segs with
  | [] => None
  | seg1 :: rest =>
      match check_against seg1 rest with
      | Some pt => Some pt
      | None => check_segments rest
      end
  end.

(** The collision check that ends the function, and its return value. *)
Definition post_validation (st : state) : result :=
  match check_segments (IterateSegmentsWithHoles (aPolygons st)) with
  | Some pt => Returned false (set_location pt st)
  | None => Returned (polygonComplete st) st
  end.

(** The perimeter: the first primitive [graphic], already taken out of
    the pool, goes out as the outline. *)
Definition build_outline (aTolerance : Z) (graphic : DRAWSEGMENT) (st : state)
    : outcome :=
  match GetShape graphic with
  | S_CIRCLE =>
      Normal (set_polygons
                (TransformCircleToPolygon G (aPolygons st) (GetCenter graphic)
                                          (GetRadius graphic) aTolerance) st)
  | S_RECT =>
      Normal (set_polygons
                (AppendAll (GetRectCorners graphic) (-1)
                           (NewOutline (aPolygons st))) st)
  | S_POLYGON =>
      let pts := map (place (GetParentModule graphic))
                     (CIterate0 (GetPolyShape graphic)) in
      Normal (set_polygons (AppendAll pts (-1) (NewOutline (aPolygons st))) st)
  | _ =>
      let startPt :=
        match GetShape graphic with
        | S_ARC => GetArcEnd graphic
        | _ => GetEnd graphic
        end in
      let st := set_polygons (Append startPt (-1) (NewOutline (aPolygons st))) st in
      chain_walk (S (length (segList st))) aTolerance None startPt graphic startPt st
  end.

(** The state on entry: nothing reported yet. *)
Definition initial_state (aSegList : list DRAWSEGMENT) (ps : SHAPE_POLY_SET)
    : state :=
  mkState ps aSegList [] None true O O.

Definition ConvertOutlineToPolygon (aSegList : list DRAWSEGMENT)
    (ps : SHAPE_POLY_SET) (aTolerance : Z) : result :=
  match aSegList with
  | [] => Returned true (initial_state aSegList ps)
  | _ :: _ =>
      let st := initial_state aSegList ps in
      let xmini := (find_xmin aSegList aTolerance).2 in
      match segList st !! xmini with
      | None => Undefined
      | Some graphic =>
          let st := set_segList (delete xmini (segList st)) st in
          match build_outline aTolerance graphic st with
          | Normal st =>
              match hole_loop (length (segList st)) aTolerance (-1) st with
              | Normal st => post_validation st
              | ReturnFalse st => Returned false st
              | OutOfRange => Undefined
              | OutOfFuel => Diverged
              end
          | ReturnFalse st => Returned false st
          | OutOfRange => Undefined
          | OutOfFuel => Diverged
          end
      end
  end.

(** ** BuildBoardPolygonOutlines *)

Inductive PCB_LAYER_ID : Type :=
  | Edge_Cuts
  | OtherLayer (id : nat).

Definition is_Edge_Cuts (layer : PCB_LAYER_ID) : bool :=
  match layer with
  | Edge_Cuts => true
  | OtherLayer _ => false
  end.

(** Modelled from the spec: EDA_RECT (not among the sources), an origin
    and a size; [Inflate] moves every side out by the margin. *)
Record EDA_RECT : Type := mkRect {
  GetOrigin : Point;
  GetSize : Point
}.

Definition GetWidth_rect (r : EDA_RECT) : Z := (GetSize r).1.
Definition GetHeight_rect (r : EDA_RECT) : Z := (GetSize r).2.

Definition GetEnd_rect (r : EDA_RECT) : Point :=
  (int_add (GetOrigin r).1 (GetSize r).1, int_add (GetOrigin r).2 (GetSize r).2).

Definition Inflate (d : Z) (r : EDA_RECT) : EDA_RECT :=
  mkRect (int_sub (GetOrigin r).1 d, int_sub (GetOrigin r).2 d)
         (int_add (GetSize r).1 (2 * d), int_add (GetSize r).2 (2 * d)).

(** Modelled from the spec: BOARD (class_board.h is not among the
    sources), as what the function asks of it: the graphic items that
    [PCB_TYPE_COLLECTOR] collects, each with its layer, and the two
    bounding boxes. *)
Record BOARD : Type := mkBoard {
  items : list (PCB_LAYER_ID * DRAWSEGMENT);
  GetBoardEdgesBoundingBox : EDA_RECT;
  ComputeBoundingBox : EDA_RECT
}.

Definition is_null_area (r : EDA_RECT) : bool :=
  (GetWidth_rect r =? 0) || (GetHeight_rect r =? 0).

(** The box the rectangular outline is made of. *)
Definition fallback_box (aBoard : BOARD) : EDA_RECT :=
  let bbbox := GetBoardEdgesBoundingBox aBoard in
  let bbbox := if is_null_area bbbox then ComputeBoundingBox aBoard else bbbox in
  if is_null_area bbbox then Inflate (Millimeter2iu_1 G) bbbox else bbbox.

(** The four corners in the order they are appended. *)
Definition box_corners (bbbox : EDA_RECT) : list Point :=
  [ GetOrigin bbbox;
    ((GetOrigin bbbox).1, (GetEnd_rect bbbox).2);
    GetEnd_rect bbbox;
    ((GetEnd_rect bbbox).1, (GetOrigin bbbox).2) ].

Definition fallback_outline (aBoard : BOARD) (aOutlines : SHAPE_POLY_SET)
    : SHAPE_POLY_SET :=
  AppendAll (box_corners (fallback_box aBoard)) (-1)
            (NewOutline (RemoveAllContours aOutlines)).

(** The outcome of [BuildBoardPolygonOutlines]: the return value and
    [aOutlines], or what stopped the conversion. *)
Inductive board_result : Type :=
  | BoardReturned (success : bool) (aOutlines : SHAPE_POLY_SET)
  | BoardUndefined
  | BoardDiverged.

Definition edge_segments (aBoard : BOARD) : list DRAWSEGMENT :=
  map snd (filter (fun it => is_Edge_Cuts it.1 = true) (items aBoard)).

Definition BuildBoardPolygonOutlines (aBoard : BOARD)
    (aOutlines : SHAPE_POLY_SET) (aTolerance : Z) : board_result :=
  let segList := edge_segments aBoard in
  let converted :=
    match segList with
    | [] => Returned false (initial_state [] aOutlines)
    | _ :: _ => ConvertOutlineToPolygon segList aOutlines aTolerance
    end in
  match converted with
  | Returned success st =>
      if negb success || (OutlineCount (aPolygons st) =? 0)%nat
      then BoardReturned success (fallback_outline aBoard (aPolygons st))
      else BoardReturned success (aPolygons st)
  | Undefined => BoardUndefined
  | Diverged => BoardDiverged
  end.

End Engine.

(** ** Concrete inputs *)

(** A straight segment from [a] to [b], outside any footprint. *)
Definition segment (a b : Point) : DRAWSEGMENT :=
  mkDrawSegment S_SEGMENT a b a b a 0 0%Q 0 [] [] [] None a.

(** A closed triangle, as three segments. *)
Definition triangle (a b c : Point) : list DRAWSEGMENT :=
  [segment a b; segment b c; segment c a].

(** A geometry that turns nothing, for evaluating the engine on inputs
    made of straight segments. *)
Definition still_geometry : GEOMETRY :=
  mkGeometry (fun _ _ _ => 0) (fun pt _ _ _ _ => pt) (fun pt _ => pt)
             (fun _ _ _ => []) 1000000.

(** The square of the specification's example. *)
Definition square : list DRAWSEGMENT :=
  [ segment (0, 0) (10, 0); segment (10, 0) (10, 10);
    segment (10, 10) (0, 10); segment (0, 10) (0, 0) ].

Definition square_corners : list Point := [(0, 0); (10, 0); (10, 10); (0, 10)].

(** ** What findPoint is specified to do *)

(** [aPoint] is one of the two points compared for [graphic]. *)
Definition exact_match (aPoint : Point) (graphic : DRAWSEGMENT) : bool :=
  Point_eqb aPoint (endpoints graphic).1 || Point_eqb aPoint (endpoints graphic).2.

(** The distance from [aPoint] to the nearer of the two points. *)
Definition endpoint_distance (aPoint : Point) (graphic : DRAWSEGMENT) : Z :=
  Z.min (close_ness aPoint (endpoints graphic).1)
        (close_ness aPoint (endpoints graphic).2).

(** ** What post-validation is specified to reject *)

(** The same pair of end points, in either order. *)
Definition same_edge (s1 s2 : SEG) : bool :=
  SEG_eqb s1 s2 || (Point_eqb s1.1 s2.2 && Point_eqb s1.2 s2.1).

(** The location reported for a pair of segments, if the pair is
    rejected: the first point of [s1] for the same edge twice, the
    crossing point for two segments that cross. *)
Definition rejected (s1 s2 : SEG) : option Point :=
  if same_edge s1 s2 then Some s1.1 else SEG_Intersect s1 s2.

(** [s1] comes before [s2] in the order of the segment iterator. *)
Definition in_order (s1 s2 : SEG) (segs : list SEG) : Prop :=
  exists pre mid post, segs = pre ++ s1 :: mid ++ s2 :: post.

(** ** More concrete inputs *)



(** Three closed triangles in a row: the corner [(12, 0)] of the second is
    2 away from the corner [(10, 0)] of the first, the corner [(14, 0)] of
    the third is 2 away from [(12, 0)] and 4 away from [(10, 0)]. *)
Definition three_triangles : list DRAWSEGMENT :=
  triangle (0, 0) (10, 0) (0, 10)
  ++ triangle (12, 0) (12, -5) (13, -5)
  ++ triangle (14, 0) (14, 5) (15, 5).

(** A state whose one outline runs from [(0, 0)] to [(10, 0)] and, being
    closed, back. *)
Definition there_and_back : state :=
  mkState [[mkChain [(0, 0); (10, 0)] true]] [] [] None true O O.



(** Two segments that do not meet. *)
Definition two_segments : list DRAWSEGMENT :=
  [segment (0, 0) (10, 0); segment (20, 0) (30, 0)].

(** A board whose edge is one segment. *)
Definition one_segment_board : BOARD :=
  mkBoard [(Edge_Cuts, segment (0, 0) (10, 0))]
          (mkRect (0, 0) (10, 0)) (mkRect (0, 0) (10, 0)).

(** A board whose edge is the two segments that do not meet. *)
Definition two_segment_board : BOARD :=
  mkBoard (map (fun g => (Edge_Cuts, g)) two_segments)
          (mkRect (0, 0) (30, 0)) (mkRect (0, 0) (30, 0)).


Definition doubled_triangle : state :=
  mkState [[mkChain [(3, 4); (10, 0); (5, 9)] true;
            mkChain [(3, 4); (10, 0); (5, 9)] true]]
          [] [] None true O O.

(** Four segments in the shape of an X closed on two sides. *)
Definition bowtie_segments : list DRAWSEGMENT :=
  [ segment (0, 0) (10, 10); segment (10, 10) (10, 0);
    segment (10, 0) (0, 10); segment (0, 10) (0, 0) ].

(** ** Invariants of a call *)

(** A contour reported as not closed has cleared the return value. *)
Definition unclosed_is_incomplete (st : state) : Prop :=
  (exists p, UnableToFindEdge p ∈ aErrorText st) -> polygonComplete st = false.

(** The account of the pool of [n] primitives: with [k] primitives taken
    out and not yet walked, the iterations so far and the primitives left
    stay within [n]. *)
Definition within (n k : nat) (st : state) : Prop :=
  (walk_iterations st + length (segList st) + k <= n)%nat /\
  (hole_iterations st + length (segList st) + 1 <= n)%nat /\
  unclosed_is_incomplete st.

(** The polygon set of a call entered with an empty [aPolygons]: one
    polygon, of [k] contours. *)
Definition one_polygon (k : nat) (ps : SHAPE_POLY_SET) : Prop :=
  exists poly, ps = [poly] /\ length poly = k.

(** ** The footprint outline *)

(** Modelled from the spec: two more operations of SHAPE_POLY_SET
    (geometry/shape_poly_set.h is not among the sources).
    [AddHole( aHole, -1 )] is one more hole in the last polygon;
    [CIterateSegments( aOutline )] gives the segments of one outline, its
    holes left out. *)
Definition AddHole (aHole : SHAPE_LINE_CHAIN) (ps : SHAPE_POLY_SET)
    : SHAPE_POLY_SET :=
  alter (fun poly => poly ++ [aHole]) (pred (length ps)) ps.

Definition CIterateSegments (aOutline : nat) (ps : SHAPE_POLY_SET) : list SEG :=
  match ps !! aOutline with
  | Some (c :: _) => chain_segments c
  | _ => []
  end.

(** Modelled from the spec: what [BuildFootprintPolygonOutlines] asks of
    the board beyond [BOARD] (class_board.h, class_module.h and class_pad.h
    are not among the sources): [GetBoundingBox()], and the pads of the
    first footprint, each as the polygon [BuildPadShapePolygon] gives for
    it.  The board is taken to have a first footprint. *)
Record FOOTPRINT_BOARD : Type := mkFootprintBoard {
  fp_board : BOARD;
  GetBoundingBox : EDA_RECT;
  Pads : list SHAPE_POLY_SET
}.

Section Footprint.

Context (G : GEOMETRY).

(** [SHAPE_POLY_SET::Collide( seg )], [SEG::Distance( point )] and
    [SEG::NearestPoint( point )], none of them among the sources, are taken
    as they are called. *)
Context (Collide : SHAPE_POLY_SET -> SEG -> bool).
Context (Distance : SEG -> Point -> Z).
Context (NearestPoint : SEG -> Point -> Point).

(** The box [buildBoardBoundingBoxPoly] makes its rectangle of. *)
Definition bounding_box (aBoard : FOOTPRINT_BOARD) : EDA_RECT :=
  let bbbox := GetBoundingBox aBoard in
  let bbbox :=
    if is_null_area bbbox then ComputeBoundingBox (fp_board aBoard) else bbbox in
  if is_null_area bbbox then Inflate (Millimeter2iu_1 G) bbbox else bbbox.

Definition buildBoardBoundingBoxPoly (aBoard : FOOTPRINT_BOARD)
    (aOutline : SHAPE_POLY_SET) : SHAPE_POLY_SET :=
  AppendAll (box_corners (bounding_box aBoard)) (-1)
            (NewOutline (RemoveAllContours aOutline)).

(** The inner loop of [isCopperOutside]: [padOutsidePad] for one pad. *)
Definition pad_outside (aShape : SHAPE_POLY_SET) (padPoly : SHAPE_POLY_SET)
    : bool :=
  foldl (fun padOutsidePad seg => padOutsidePad || negb (Collide aShape seg))
        false (CIterateSegments 0 padPoly).

Definition isCopperOutside (pads : list SHAPE_POLY_SET) (aShape : SHAPE_POLY_SET)
    : bool :=
  foldl (fun padOutside padPoly => padOutside || pad_outside aShape padPoly)
        false pads.

(** One turn of the loop of [projectPointOnSegment] on
    [(minDistance, projPoint)]. *)
Definition project_step (aEndPoint : Point) (acc : Z * Point) (seg : SEG)
    : Z * Point :=
  let dis := Distance seg aEndPoint in
  if (acc.1 <? 0) || (dis <? acc.1) then (dis, NearestPoint seg aEndPoint)
  else acc.

Definition projectPointOnSegment (aEndPoint : Point) (aOutline : SHAPE_POLY_SET)
    (aOutlineNum : nat) : Point :=
  (foldl (project_step aEndPoint) (-1, (0, 0))
         (CIterateSegments aOutlineNum aOutline)).2.

(** The loops that copy every outline of [outlines] and every hole of it
    into [aOutlines] as holes. *)
Definition add_as_holes (outlines aOutlines : SHAPE_POLY_SET) : SHAPE_POLY_SET :=
  foldl (fun acc (poly : POLYGON) => foldl (fun acc c => AddHole c acc) acc poly)
        aOutlines outlines.

(** [BuildFootprintPolygonOutlines]; the branch of an outline that is
    present but not closed computes two projections per open contour for
    the debug log and writes nothing to [aOutlines]. *)
Definition BuildFootprintPolygonOutlines (aBoard : FOOTPRINT_BOARD)
    (aOutlines : SHAPE_POLY_SET) (aTolerance : Z) : board_result :=
  let segList := edge_segments (fp_board aBoard) in
  match ConvertOutlineToPolygon G segList [] aTolerance with
  | Returned success st =>
      let outlines := aPolygons st in
      if success then
        if isCopperOutside (Pads aBoard) outlines
        then BoardReturned success
               (add_as_holes outlines (buildBoardBoundingBoxPoly aBoard aOutlines))
        else BoardReturned success outlines
      else if (OutlineCount outlines =? 0)%nat
      then BoardReturned success (buildBoardBoundingBoxPoly aBoard aOutlines)
      else BoardReturned success aOutlines
  | Undefined => BoardUndefined
  | Diverged => BoardDiverged
  end.

End Footprint.

(** ** What the further properties speak of *)

(** The shapes a chain walk does not handle. *)
Definition closed_shape (shape : STROKE_T) : bool :=
  match shape with
  | S_RECT | S_CIRCLE | S_POLYGON => true
  | S_SEGMENT | S_ARC | S_CURVE => false
  end.

(** The ways a chain walk or the hole loop changes the polygon set. *)
Inductive poly_step : SHAPE_POLY_SET -> SHAPE_POLY_SET -> Prop :=
  | step_Append (pt : Point) (aHole : Z) (ps : SHAPE_POLY_SET) :
      poly_step ps (Append pt aHole ps)
  | step_SetClosed (aHole : Z) (ps ps' : SHAPE_POLY_SET) :
      Hole_SetClosed 0 aHole false ps = Some ps' -> poly_step ps ps'
  | step_NewHole (ps : SHAPE_POLY_SET) :
      poly_step ps (NewHole ps).1.

(** A property of the state that the steps of the chain walks and of the
    hole loop keep. *)
Record stable (P : state -> Prop) : Prop := mkStable {
  stable_polygons :
    forall st ps', poly_step (aPolygons st) ps' -> P st -> P (set_polygons ps' st);
  stable_segList : forall st l, P st -> P (set_segList l st);
  stable_tick_walk : forall st, P st -> P (tick_walk st);
  stable_tick_hole : forall st, P st -> P (tick_hole st);
  stable_unclosed :
    forall st p, P st -> P (set_incomplete (report (UnableToFindEdge p) p st))
}.

(** What is known of a state handed back by [return false]: a chain walk
    met a primitive of a shape it does not handle, and reported it. *)
Definition aborted (P : state -> Prop) (st' : state) : Prop :=
  exists st2 shape pos,
    P st2 /\ closed_shape shape = true /\
    st' = report (UnsupportedType shape) pos st2.

(** How a call on a list that is not empty returns: through the
    collision check on a state [st2] with an empty pool, or by
    [return false] in a chain walk. *)
Definition returned_through (P : state -> Prop) (value : bool) (st : state)
    : Prop :=
  (exists st2, P st2 /\ segList st2 = [] /\ post_validation st2 = Returned value st)
  \/ (value = false /\ aborted P st).

(** The points the start-point scan compares for a primitive. *)
Definition scan_points (G : GEOMETRY) (aSegList : list DRAWSEGMENT)
    (aTolerance : Z) (graphic : DRAWSEGMENT) : list Point :=
  match GetShape graphic with
  | S_RECT | S_SEGMENT => [GetStart graphic; GetEnd graphic]
  | S_ARC =>
      arc_points G (GetArcStart graphic) (GetCenter graphic)
                 (Qopp (GetAngle graphic))
                 (ArcSegmentCount G (GetRadius graphic) aTolerance
                                  (Qopp (GetAngle graphic)))
  | S_CIRCLE =>
      if 0 <? GetRadius graphic
      then [(int_sub (GetCenter graphic).1 (GetRadius graphic),
             (GetCenter graphic).2)]
      else []
  | S_CURVE => GetBezierPoints graphic
  | S_POLYGON =>
      map (place G (mjoin (GetParentModule <$> (aSegList !! O))))
          (CIterate (GetPolyShape graphic))
  end.

(** Nothing has been reported and the return value in waiting is [true],
    or it is [false] and an error location has been written. *)
Definition clean_or_located (st : state) : Prop :=
  (polygonComplete st = true /\ aErrorText st = [] /\ aErrorLocation st = None)
  \/ (polygonComplete st = false /\ is_Some (aErrorLocation st)).

(** Every message so far reports an unclosed contour. *)
Definition only_unclosed_reports (st : state) : Prop :=
  Forall (fun msg => exists p, msg = UnableToFindEdge p) (aErrorText st).

(** The polygon set holds one polygon more than [ps]. *)
Definition outline_count_is (ps : SHAPE_POLY_SET) (st : state) : Prop :=
  OutlineCount (aPolygons st) = S (OutlineCount ps).

(** A rectangle primitive with the given corners; [GetStart] and [GetEnd]
    are two opposite corners. *)
Definition rectangle (a b : Point) : DRAWSEGMENT :=
  mkDrawSegment S_RECT a b a b a 0 0%Q 0 [] []
                [a; (b.1, a.2); b; (a.1, b.2)] None a.

(** A geometry whose circles become the outline of their four axis
    points, for evaluating calls that meet a circle. *)
Definition ring_geometry : GEOMETRY :=
  mkGeometry (fun _ _ _ => 4) (fun pt _ _ _ _ => pt) (fun pt _ => pt)
             (fun c r _ => [ (c.1 + r, c.2); (c.1, c.2 + r);
                             (c.1 - r, c.2); (c.1, c.2 - r) ])
             1000000.

(** A board with one segment on another layer than Edge_Cuts. *)
Definition board_without_edges : BOARD :=
  mkBoard [(OtherLayer 0, segment (0, 0) (10, 0))]
          (mkRect (0, 0) (0, 0)) (mkRect (0, 0) (10, 10)).

(** A footprint board whose edge is one segment, with no pad. *)
Definition footprint_with_open_edge : FOOTPRINT_BOARD :=
  mkFootprintBoard
    (mkBoard [(Edge_Cuts, segment (0, 0) (10, 0))]
             (mkRect (0, 0) (10, 0)) (mkRect (0, 0) (10, 10)))
    (mkRect (0, 0) (10, 10)) [].

(** A footprint board with no graphic item and no pad. *)
Definition empty_footprint : FOOTPRINT_BOARD :=
  mkFootprintBoard (mkBoard [] (mkRect (0, 0) (0, 0)) (mkRect (0, 0) (0, 0)))
                   (mkRect (0, 0) (0, 0)) [].

(** A footprint board whose edge is the square, with one pad. *)
Definition footprint_with_square_edge : FOOTPRINT_BOARD :=
  mkFootprintBoard
    (mkBoard (map (fun g => (Edge_Cuts, g)) square)
             (mkRect (0, 0) (10, 10)) (mkRect (0, 0) (10, 10)))
    (mkRect (-5, -5) (20, 20))
    [[[mkChain [(20, 20); (22, 20); (22, 22)] true]]].

(** A distance and a nearest point for evaluating
    [projectPointOnSegment]: those of the first end of the segment. *)
Definition first_end_distance (seg : SEG) (aPoint : Point) : Z :=
  manhattan seg.1 aPoint.

Definition first_end (seg : SEG) (aPoint : Point) : Point := seg.1.

(** The points a rectangle or a polygon primitive puts out when it is
    the leftmost primitive: the corners in their stored order, or the
    vertices of the first outline placed with the primitive's parent. *)
Definition fast_path_points (G : GEOMETRY) (graphic : DRAWSEGMENT) : list Point :=
  match GetShape graphic with
  | S_POLYGON =>
      map (place G (GetParentModule graphic)) (CIterate0 (GetPolyShape graphic))
  | _ => GetRectCorners graphic
  end.

(** * Properties *)

(** ** Integers and points *)

Lemma Point_eqb_eq (a b : Point) : Point_eqb a b = true <-> a = b.
Proof.
  destruct a as [ax ay], b as [bx by_]. unfold Point_eqb. simpl.
  rewrite andb_true_iff, !Z.eqb_eq. split.
  - intros [-> ->]. reflexivity.
  - intros [= -> ->]. split; reflexivity.
Qed.

Lemma Point_eqb_refl (a : Point) : Point_eqb a a = true.
Proof. apply Point_eqb_eq. reflexivity. Qed.

Lemma to_unsigned_range (z : Z) : 0 <= to_unsigned z < 2 ^ 32.
Proof. unfold to_unsigned. apply Z.mod_pos_bound. lia. Qed.

Lemma close_ness_nonneg (a b : Point) : 0 <= close_ness a b.
Proof. unfold close_ness. apply to_unsigned_range. Qed.

Lemma int_wrap_small (z : Z) : - 2 ^ 31 <= z < 2 ^ 31 -> int_wrap z = z.
Proof.
  intros Hz. unfold int_wrap. rewrite Z.mod_small; lia.
Qed.

(** Where the sum does not leave the range of [int], [close_ness] is the
    Manhattan distance. *)
Lemma close_ness_manhattan (a b : Point) :
  manhattan a b <= INT_MAX -> close_ness a b = manhattan a b.
Proof.
  unfold manhattan, close_ness, int_add, int_abs, int_sub, INT_MAX.
  intros H.
  assert (Hx : int_wrap (a.1 - b.1) = a.1 - b.1) by (apply int_wrap_small; lia).
  assert (Hy : int_wrap (a.2 - b.2) = a.2 - b.2) by (apply int_wrap_small; lia).
  rewrite Hx, Hy.
  rewrite (int_wrap_small (Z.abs (a.1 - b.1))) by lia.
  rewrite (int_wrap_small (Z.abs (a.2 - b.2))) by lia.
  rewrite int_wrap_small by lia.
  unfold to_unsigned. rewrite Z.mod_small; lia.
Qed.

Lemma close_enough_mono (a b : Point) (t1 t2 : Z) :
  t1 <= t2 -> close_enough a b t1 = true -> close_enough a b t2 = true.
Proof.
  unfold close_enough. rewrite !Z.leb_le. lia.
Qed.

(** ** findPoint *)

Lemma exact_match_unfold (aPoint : Point) (graphic : DRAWSEGMENT) :
  exact_match aPoint graphic =
  let '(p1, p2) := endpoints graphic in
  Point_eqb aPoint p1 || Point_eqb aPoint p2.
Proof. unfold exact_match. destruct (endpoints graphic). reflexivity. Qed.

(** One turn of the loop on a primitive that is not an exact match. *)
Lemma findPoint_loop_step (aPoint : Point) (graphic : DRAWSEGMENT)
    (rest : list DRAWSEGMENT) (i : nat) (min_d : Z) (ndx_min : nat) :
  exact_match aPoint graphic = false ->
  findPoint_loop aPoint (graphic :: rest) i min_d ndx_min =
  findPoint_loop aPoint rest (S i)
    (Z.min min_d (endpoint_distance aPoint graphic))
    (if endpoint_distance aPoint graphic <? min_d then i else ndx_min).
Proof.
  unfold exact_match, endpoint_distance. simpl.
  destruct (endpoints graphic) as [p1 p2]. simpl. intros ->.
  destruct (Z.ltb_spec (close_ness aPoint p1) min_d) as [H1|H1];
  [ destruct (Z.ltb_spec (close_ness aPoint p2) (close_ness aPoint p1)) as [H2|H2]
  | destruct (Z.ltb_spec (close_ness aPoint p2) min_d) as [H2|H2] ];
  destruct (Z.ltb_spec (Z.min (close_ness aPoint p1) (close_ness aPoint p2)) min_d);
  try lia; f_equal; lia.
Qed.

Lemma findPoint_loop_exact (aPoint : Point) (graphic : DRAWSEGMENT)
    (rest : list DRAWSEGMENT) (i : nat) (min_d : Z) (ndx_min : nat) :
  exact_match aPoint graphic = true ->
  findPoint_loop aPoint (graphic :: rest) i min_d ndx_min = inl i.
Proof.
  unfold exact_match. simpl. destruct (endpoints graphic) as [p1 p2].
  simpl. intros ->. reflexivity.
Qed.

(** An early return of the loop names the first exact match. *)
Lemma findPoint_loop_inl (aPoint : Point) (rest : list DRAWSEGMENT) :
  forall (i : nat) (min_d : Z) (ndx_min k : nat),
  findPoint_loop aPoint rest i min_d ndx_min = inl k ->
  exists pre graphic post,
    rest = pre ++ graphic :: post /\ k = (i + length pre)%nat /\
    exact_match aPoint graphic = true /\
    Forall (fun h => exact_match aPoint h = false) pre.
Proof.
  induction rest as [|g rest IH]; intros i min_d ndx_min k H.
  - discriminate.
  - destruct (exact_match aPoint g) eqn:Hg.
    + rewrite findPoint_loop_exact in H by exact Hg. injection H as <-.
      exists [], g, rest. repeat split; auto; simpl; lia.
    + rewrite findPoint_loop_step in H by exact Hg.
      apply IH in H as (pre & graphic & post & -> & -> & Hm & Hpre).
      exists (g :: pre), graphic, post. repeat split; auto; simpl; lia.
Qed.

(** A loop that runs to the end found no exact match, and leaves the
    least distance below its starting [min_d], with the first index that
    has it. *)
Lemma findPoint_loop_inr (aPoint : Point) (rest : list DRAWSEGMENT) :
  forall (i : nat) (min_d : Z) (ndx_min : nat) (m : Z) (n : nat),
  findPoint_loop aPoint rest i min_d ndx_min = inr (m, n) ->
  Forall (fun h => exact_match aPoint h = false) rest /\
  Forall (fun h => m <= endpoint_distance aPoint h) rest /\
  ((m = min_d /\ n = ndx_min) \/
   (m < min_d /\
    exists pre graphic post,
      rest = pre ++ graphic :: post /\ n = (i + length pre)%nat /\
      endpoint_distance aPoint graphic = m /\
      Forall (fun h => m < endpoint_distance aPoint h) pre)).
Proof.
  induction rest as [|g rest IH]; intros i min_d ndx_min m n H.
  - injection H as <- <-. repeat split; auto.
  - destruct (exact_match aPoint g) eqn:Hg.
    + rewrite findPoint_loop_exact in H by exact Hg. discriminate.
    + rewrite findPoint_loop_step in H by exact Hg.
      apply IH in H as (Hex & Hle & Hcase).
      assert (Hmg : m <= endpoint_distance aPoint g).
      { destruct Hcase as [[-> _]|[Hlt _]]; lia. }
      split; [constructor; auto|]. split; [constructor; auto|].
      destruct Hcase as [[Hm Hn]|[Hlt (pre & graphic & post & -> & -> & Hd & Hpre)]].
      * destruct (Z.ltb_spec (endpoint_distance aPoint g) min_d) as [Hc|Hc].
        -- right. split; [lia|]. exists [], g, rest.
           split; [reflexivity|]. split; [simpl; lia|]. split; [lia|constructor].
        -- left. split; [lia|assumption].
      * right. split; [lia|]. exists (g :: pre), graphic, post.
        split; [reflexivity|]. split; [simpl; lia|]. split; [exact Hd|].
        constructor; [lia|exact Hpre].
Qed.

Lemma take_at_middle (pre post : list DRAWSEGMENT) (graphic : DRAWSEGMENT) :
  take_at (pre ++ graphic :: post) (length pre) = Found graphic (pre ++ post).
Proof.
  unfold take_at. rewrite list_lookup_middle by reflexivity.
  rewrite delete_middle. reflexivity.
Qed.

(** Below the sentinel [INT_MAX], [findPoint] does what it is specified
    to do: the first exact match, else the first primitive at the least
    distance when that is within [aLimit], else nothing; a primitive that
    is found is the one element taken out of the pool. *)
Theorem findPoint_below_sentinel (aPoint : Point) (aList : list DRAWSEGMENT)
    (aLimit : Z) :
  aLimit < INT_MAX ->
  match findPoint aPoint aList aLimit with
  | Found graphic aList' =>
      exists pre post,
        aList = pre ++ graphic :: post /\ aList' = pre ++ post /\
        Forall (fun h => exact_match aPoint h = false) pre /\
        (exact_match aPoint graphic = true \/
         (Forall (fun h => exact_match aPoint h = false) aList /\
          endpoint_distance aPoint graphic <= aLimit /\
          Forall (fun h => endpoint_distance aPoint graphic
                           < endpoint_distance aPoint h) pre /\
          Forall (fun h => endpoint_distance aPoint graphic
                           <= endpoint_distance aPoint h) aList))
  | NotFound =>
      Forall (fun h => exact_match aPoint h = false) aList /\
      Forall (fun h => aLimit < endpoint_distance aPoint h) aList
  | BadIndex => False
  end.
Proof.
  intros Hlim. unfold findPoint.
  destruct (findPoint_loop aPoint aList 0 INT_MAX 0) as [k|[m n]] eqn:Hloop.
  - apply findPoint_loop_inl in Hloop
      as (pre & graphic & post & -> & -> & Hm & Hpre).
    simpl. rewrite take_at_middle. exists pre, post. auto.
  - apply findPoint_loop_inr in Hloop as (Hex & Hle & Hcase).
    destruct (Z.leb_spec m aLimit) as [Hc|Hc].
    + destruct Hcase as [[-> _]|[_ (pre & graphic & post & -> & -> & Hd & Hpre)]];
        [lia|].
      simpl. rewrite take_at_middle. exists pre, post.
      repeat split; auto.
      * apply Forall_app in Hex as [Hex _]. exact Hex.
      * right. rewrite Hd. repeat split; auto.
    + split; [exact Hex|].
      revert Hle. apply List.Forall_impl. intros h Hh. lia.
Qed.

Lemma findPoint_Found_length (aPoint : Point) (aList aList' : list DRAWSEGMENT)
    (aLimit : Z) (graphic : DRAWSEGMENT) :
  findPoint aPoint aList aLimit = Found graphic aList' ->
  length aList = S (length aList').
Proof.
  unfold findPoint, take_at. intros H.
  assert (Hk : forall k, match aList !! k with
                         | Some g => Found g (delete k aList)
                         | None => BadIndex
                         end = Found graphic aList' ->
                         length aList = S (length aList')).
  { intros k Hk. destruct (aList !! k) as [g|] eqn:Hg; [|discriminate].
    injection Hk as _ <-. apply lookup_lt_Some in Hg.
    rewrite length_delete by eauto using lookup_lt_is_Some_2. lia. }
  destruct (findPoint_loop aPoint aList 0 INT_MAX 0) as [k|[m n]].
  - eauto.
  - destruct (m <=? aLimit); [eauto|discriminate].
Qed.

(** A search that succeeds with a limit succeeds with every larger one,
    on the same primitive. *)
Lemma findPoint_mono (aPoint : Point) (aList aList' : list DRAWSEGMENT)
    (t1 t2 : Z) (graphic : DRAWSEGMENT) :
  t1 <= t2 ->
  findPoint aPoint aList t1 = Found graphic aList' ->
  findPoint aPoint aList t2 = Found graphic aList'.
Proof.
  unfold findPoint. intros Ht.
  destruct (findPoint_loop aPoint aList 0 INT_MAX 0) as [k|[m n]]; auto.
  destruct (Z.leb_spec m t1); [|discriminate].
  destruct (Z.leb_spec m t2); [auto|lia].
Qed.

Lemma findPoint_BadIndex (aPoint : Point) (aList : list DRAWSEGMENT) (aLimit : Z) :
  findPoint aPoint aList aLimit = BadIndex -> INT_MAX <= aLimit.
Proof.
  intros H. destruct (Z.lt_ge_cases aLimit INT_MAX) as [Hlt|Hge]; [|exact Hge].
  pose proof (findPoint_below_sentinel aPoint aList aLimit Hlt) as Hs.
  rewrite H in Hs. contradiction.
Qed.

(** ** The start-point scan *)

Section EngineFacts.

Context (G : GEOMETRY).

Lemma xmin_update_index (i : nat) (acc : Point * nat) (pt : Point) :
  (xmin_update i acc pt).2 = acc.2 \/ (xmin_update i acc pt).2 = i.
Proof.
  unfold xmin_update. destruct (pt.1 <? acc.1.1); simpl; auto.
Qed.

Lemma foldl_xmin_update_index (i : nat) (pts : list Point) :
  forall acc : Point * nat,
  (foldl (xmin_update i) acc pts).2 = acc.2 \/
  (foldl (xmin_update i) acc pts).2 = i.
Proof.
  induction pts as [|pt pts IH]; intros acc; simpl.
  - auto.
  - destruct (IH (xmin_update i acc pt)) as [H|H]; [|auto].
    rewrite H. apply xmin_update_index.
Qed.

Lemma scan_graphic_index (aSegList : list DRAWSEGMENT) (aTolerance : Z)
    (i : nat) (graphic : DRAWSEGMENT) (acc : Point * nat) :
  (scan_graphic G aSegList aTolerance i graphic acc).2 = acc.2 \/
  (scan_graphic G aSegList aTolerance i graphic acc).2 = i.
Proof.
  unfold scan_graphic. destruct (GetShape graphic).
  - destruct (xmin_update_index i (xmin_update i acc (GetStart graphic))
                                (GetEnd graphic)) as [H|H]; [|auto].
    rewrite H. apply xmin_update_index.
  - destruct (xmin_update_index i (xmin_update i acc (GetStart graphic))
                                (GetEnd graphic)) as [H|H]; [|auto].
    rewrite H. apply xmin_update_index.
  - apply foldl_xmin_update_index.
  - match goal with |- context [if ?c then _ else _] => destruct c end;
      simpl; auto.
  - apply foldl_xmin_update_index.
  - apply foldl_xmin_update_index.
Qed.

Lemma scan_from_index (aSegList : list DRAWSEGMENT) (aTolerance : Z)
    (rest : list DRAWSEGMENT) :
  forall (i : nat) (acc : Point * nat),
  (scan_from G aSegList aTolerance rest i acc).2 = acc.2 \/
  (i <= (scan_from G aSegList aTolerance rest i acc).2 < i + length rest)%nat.
Proof.
  induction rest as [|g rest IH]; intros i acc; simpl.
  - auto.
  - destruct (IH (S i) (scan_graphic G aSegList aTolerance i g acc)) as [H|H].
    + rewrite H.
      destruct (scan_graphic_index aSegList aTolerance i g acc) as [H'|H'];
        [auto|right; lia].
    + right. lia.
Qed.

(** [xmini] always names a primitive of a pool that is not empty. *)
Lemma find_xmin_in_range (aSegList : list DRAWSEGMENT) (aTolerance : Z) :
  aSegList <> [] ->
  ((find_xmin G aSegList aTolerance).2 < length aSegList)%nat.
Proof.
  intros Hne. unfold find_xmin.
  destruct (scan_from_index aSegList aTolerance aSegList 0 ((INT_MAX, 0), O))
    as [H|H].
  - rewrite H. simpl. destruct aSegList; [contradiction|simpl; lia].
  - lia.
Qed.

(** ** Chain walks and the hole loop *)

Lemma chain_walk_within (n : nat) (aTolerance : Z) (holeNum : option (Z * Z))
    (startPt : Point) (fuel : nat) :
  forall (graphic : DRAWSEGMENT) (prevPt : Point) (st : state),
  within n 1 st ->
  (length (segList st) < fuel)%nat ->
  match chain_walk G fuel aTolerance holeNum startPt graphic prevPt st with
  | Normal st' | ReturnFalse st' => within n 0 st'
  | OutOfRange => True
  | OutOfFuel => False
  end.
Proof.
  induction fuel as [|fuel IH]; intros graphic prevPt st (Hw & Hh & Hu) Hfuel.
  - lia.
  - simpl.
    match goal with
    | |- context [consume ?g ?t ?h ?gr ?p ?ps] =>
        destruct (consume g t h gr p ps) as [[prevPt' ps']|] eqn:Hc
    end.
    + simpl.
      destruct (findPoint prevPt' (segList st) aTolerance)
        as [graphic' segList'| |] eqn:Hf.
      * apply findPoint_Found_length in Hf.
        apply IH; simpl; [|lia].
        repeat split; simpl; try lia. exact Hu.
      * destruct (close_enough startPt prevPt' aTolerance).
        -- repeat split; simpl; try lia. exact Hu.
        -- destruct holeNum as [[hole num]|]; cbn [report aPolygons];
             [destruct (Hole_SetClosed 0 num false ps'); [|exact I]|];
             repeat split; simpl; try lia; intros _; reflexivity.
      * exact I.
    + repeat split; simpl; try lia.
      intros [p Hp]. apply Hu. exists p. simpl in Hp.
      apply elem_of_app in Hp as [Hp|Hp]; [exact Hp|].
      apply list_elem_of_singleton in Hp. discriminate.
Qed.

(** A chain walk only takes primitives out of the pool. *)
Lemma chain_walk_pool (aTolerance : Z) (holeNum : option (Z * Z))
    (startPt : Point) (fuel : nat) :
  forall (graphic : DRAWSEGMENT) (prevPt : Point) (st st' : state),
  chain_walk G fuel aTolerance holeNum startPt graphic prevPt st = Normal st' ->
  (length (segList st') <= length (segList st))%nat.
Proof.
  induction fuel as [|fuel IH]; intros graphic prevPt st st' H.
  - discriminate.
  - simpl in H.
    match type of H with
    | context [consume ?g ?t ?h ?gr ?p ?ps] =>
        destruct (consume g t h gr p ps) as [[prevPt' ps']|] eqn:Hc
    end; [|discriminate].
    simpl in H.
    destruct (findPoint prevPt' (segList st) aTolerance)
      as [graphic' segList'| |] eqn:Hf; [| |discriminate].
    + apply findPoint_Found_length in Hf.
      apply IH in H. simpl in H. lia.
    + destruct (close_enough startPt prevPt' aTolerance).
      * injection H as <-. simpl. lia.
      * destruct holeNum as [[hole num]|]; cbn [report aPolygons] in H;
          [destruct (Hole_SetClosed 0 num false ps'); [|discriminate]|];
          injection H as <-; simpl; lia.
Qed.

(** Case analysis on the chain walk in the goal, with what is known of
    each of its outcomes. *)
Ltac walk_cases n Hcw Hcp :=
  match goal with
  | |- context [chain_walk G ?f ?t ?h ?s ?g ?p ?st0] =>
      pose proof (chain_walk_within n t h s f g p st0) as Hcw;
      pose proof (chain_walk_pool t h s f g p st0) as Hcp;
      destruct (chain_walk G f t h s g p st0) as [?st'|?st'| |]
  end.

Lemma hole_loop_within (n : nat) (aTolerance : Z) (fuel : nat) :
  forall (holeNum : Z) (st : state),
  within n 0 st ->
  (length (segList st) <= fuel)%nat ->
  match hole_loop G fuel aTolerance holeNum st with
  | Normal st' => within n 0 st' /\ segList st' = []
  | ReturnFalse st' => within n 0 st'
  | OutOfRange => True
  | OutOfFuel => False
  end.
Proof.
  induction fuel as [|fuel IH]; intros holeNum st (Hw & Hh & Hu) Hfuel.
  - destruct (segList st) as [|graphic rest] eqn:Hs; simpl; rewrite Hs.
    + repeat split; auto; rewrite ?Hs; simpl; lia.
    + simpl in Hfuel. lia.
  - cbn [hole_loop]. destruct (segList st) as [|graphic rest] eqn:Hs.
    + repeat split; auto; rewrite ?Hs; simpl; lia.
    + simpl in Hfuel, Hw, Hh.
      destruct (NewHole (aPolygons st)) as [ps hole] eqn:Hn.
      assert (Hfast : forall ps', within n 0
                (set_polygons ps'
                   (tick_hole (set_segList rest (set_polygons ps st))))).
      { intros ps'. repeat split; simpl; try lia. exact Hu. }
      destruct (GetShape graphic) eqn:Hshape;
        try (apply IH; [apply Hfast|simpl; lia]).
      all: walk_cases n Hcw Hcp;
           try (apply Hcw; [repeat split; simpl; try lia; exact Hu|simpl; lia]).
      all: apply IH;
           [ apply Hcw; [repeat split; simpl; try lia; exact Hu|simpl; lia]
           | specialize (Hcp st' eq_refl); simpl in Hcp; lia ].
Qed.

Lemma within_weaken (n : nat) (st : state) : within n 1 st -> within n 0 st.
Proof. intros (Hw & Hh & Hu). repeat split; auto; lia. Qed.

Lemma build_outline_within (n : nat) (aTolerance : Z) (graphic : DRAWSEGMENT)
    (st : state) :
  within n 1 st ->
  match build_outline G aTolerance graphic st with
  | Normal st' =>
      within n 0 st' /\ (length (segList st') <= length (segList st))%nat
  | ReturnFalse st' => within n 0 st'
  | OutOfRange => True
  | OutOfFuel => False
  end.
Proof.
  intros Hin. pose proof Hin as (Hw & Hh & Hu).
  unfold build_outline.
  destruct (GetShape graphic) eqn:Hshape;
    try (split; [apply within_weaken; exact Hin|simpl; lia]).
  all: walk_cases n Hcw Hcp;
       try (apply Hcw; [exact Hin|simpl; lia]).
  all: split;
       [ apply Hcw; [exact Hin|simpl; lia]
       | specialize (Hcp st' eq_refl); simpl in Hcp; lia ].
Qed.

Lemma post_validation_within (n : nat) (st : state) :
  within n 0 st ->
  exists value st',
    post_validation st = Returned value st' /\ within n 0 st' /\
    aErrorText st' = aErrorText st /\
    (polygonComplete st = false -> value = false).
Proof.
  intros Hin. unfold post_validation.
  destruct (check_segments (IterateSegmentsWithHoles (aPolygons st))) as [pt|].
  - exists false, (set_location pt st).
    split; [reflexivity|]. split; [exact Hin|]. split; reflexivity.
  - exists (polygonComplete st), st.
    split; [reflexivity|]. split; [exact Hin|]. split; [reflexivity|auto].
Qed.

(** The whole call: it never runs out of the fuel the model gives it; when
    it returns, each of its loops has stayed within the size of the pool,
    and a reported unclosed contour makes it return [false]. *)
Lemma ConvertOutlineToPolygon_account (aSegList : list DRAWSEGMENT)
    (ps : SHAPE_POLY_SET) (aTolerance : Z) :
  match ConvertOutlineToPolygon G aSegList ps aTolerance with
  | Returned value st =>
      (walk_iterations st + length (segList st) <= length aSegList)%nat /\
      (hole_iterations st + length (segList st) <= pred (length aSegList))%nat /\
      ((exists p, UnableToFindEdge p ∈ aErrorText st) -> value = false)
  | Undefined => True
  | Diverged => False
  end.
Proof.
  unfold ConvertOutlineToPolygon.
  destruct aSegList as [|g0 rest] eqn:Hl.
  - simpl. repeat split; auto. intros [p Hp]. apply elem_of_nil in Hp. contradiction.
  - rewrite <- Hl.
    assert (Hne : aSegList <> []) by (rewrite Hl; discriminate).
    pose proof (find_xmin_in_range aSegList aTolerance Hne) as Hx.
    set (xmini := (find_xmin G aSegList aTolerance).2) in *.
    cbn [segList initial_state].
    destruct (aSegList !! xmini) as [graphic|] eqn:Hg.
    2:{ apply lookup_ge_None in Hg. lia. }
    set (n := length aSegList).
    set (st0 := set_segList (delete xmini aSegList) (initial_state aSegList ps)).
    assert (Hdel : S (length (delete xmini aSegList)) = n).
    { rewrite length_delete by eauto. unfold n. lia. }
    assert (Hin : within n 1 st0).
    { repeat split; simpl; try lia.
      intros [p Hp]. simpl in Hp. apply elem_of_nil in Hp. contradiction. }
    pose proof (build_outline_within n aTolerance graphic st0 Hin) as Hb.
    destruct (build_outline G aTolerance graphic st0) as [st1|st1| |];
      [| |exact Hb|exact Hb].
    + destruct Hb as [Hin1 Hlen1].
      pose proof (hole_loop_within n aTolerance (length (segList st1)) (-1)
                                   st1 Hin1 (Nat.le_refl _)) as Hh.
      destruct (hole_loop G (length (segList st1)) aTolerance (-1) st1)
        as [st2|st2| |]; [| |exact Hh|exact Hh].
      * destruct Hh as [Hin2 _].
        destruct (post_validation_within n st2 Hin2)
          as (value & st3 & -> & (Hw & Hh & Hu) & Htext & Hv).
        repeat split; try lia.
        intros Hp. apply Hv. destruct Hin2 as (_ & _ & Hu2). apply Hu2.
        rewrite <- Htext. exact Hp.
      * destruct Hh as (Hw & Hh & Hu). repeat split; auto; lia.
    + destruct Hb as (Hw & Hh & Hu). repeat split; auto; lia.
Qed.

(** ** The contour that line 712 names *)

Lemma Append_one_polygon (k : nat) (pt : Point) (aHole : Z)
    (ps : SHAPE_POLY_SET) :
  one_polygon k ps -> one_polygon k (Append pt aHole ps).
Proof.
  intros (poly & -> & Hk). unfold Append. simpl.
  eexists. split; [reflexivity|].
  etrans; [apply length_alter|exact Hk].
Qed.

Lemma AppendAll_one_polygon (k : nat) (pts : list Point) (aHole : Z) :
  forall ps, one_polygon k ps -> one_polygon k (AppendAll pts aHole ps).
Proof.
  unfold AppendAll. induction pts as [|pt pts IH]; intros ps H; simpl.
  - exact H.
  - apply IH, Append_one_polygon, H.
Qed.

Lemma NewHole_one_polygon (k : nat) (ps : SHAPE_POLY_SET) :
  one_polygon k ps ->
  one_polygon (S k) (NewHole ps).1 /\ (NewHole ps).2 = Z.of_nat k - 1.
Proof.
  intros (poly & -> & Hk). unfold NewHole. simpl. split.
  - eexists. split; [reflexivity|].
    etrans; [apply length_app|]. simpl. lia.
  - rewrite Hk. reflexivity.
Qed.

Lemma consume_one_polygon (k : nat) (aTolerance aHole : Z)
    (graphic : DRAWSEGMENT) (prevPt prevPt' : Point) (ps ps' : SHAPE_POLY_SET) :
  consume G aTolerance aHole graphic prevPt ps = Some (prevPt', ps') ->
  one_polygon k ps -> one_polygon k ps'.
Proof.
  unfold consume. intros H Hk.
  destruct (GetShape graphic); try discriminate.
  - injection H as _ <-. apply Append_one_polygon, Hk.
  - destruct (negb (close_enough prevPt (GetArcStart graphic) aTolerance));
      injection H as _ <-; apply AppendAll_one_polygon, Hk.
  - injection H as _ <-. apply AppendAll_one_polygon, Hk.
Qed.

Lemma Hole_SetClosed_one_polygon (k : nat) (aHole : Z) (aClosed : bool)
    (ps : SHAPE_POLY_SET) :
  one_polygon k ps -> (Z.to_nat (aHole + 1) < k)%nat ->
  exists ps', Hole_SetClosed 0 aHole aClosed ps = Some ps' /\ one_polygon k ps'.
Proof.
  intros (poly & -> & Hk) Hlt. unfold Hole_SetClosed. simpl.
  destruct (poly !! Z.to_nat (aHole + 1)) eqn:Hc.
  - eexists. split; [reflexivity|].
    eexists. split; [reflexivity|].
    etrans; [apply length_alter|exact Hk].
  - apply lookup_ge_None in Hc. lia.
Qed.

(** In a set of one polygon, a chain walk that names one of its contours
    reads past the end of a vector only in [findPoint]. *)
Lemma chain_walk_defined (k : nat) (aTolerance : Z) (holeNum : option (Z * Z))
    (startPt : Point) (fuel : nat) :
  match holeNum with
  | Some (_, n) => (Z.to_nat (n + 1) < k)%nat
  | None => True
  end ->
  forall (graphic : DRAWSEGMENT) (prevPt : Point) (st : state),
  one_polygon k (aPolygons st) ->
  match chain_walk G fuel aTolerance holeNum startPt graphic prevPt st with
  | Normal st' => one_polygon k (aPolygons st')
  | OutOfRange => INT_MAX <= aTolerance
  | ReturnFalse _ | OutOfFuel => True
  end.
Proof.
  intros Hn. induction fuel as [|fuel IH]; intros graphic prevPt st Hk.
  - exact I.
  - simpl.
    match goal with
    | |- context [consume ?g ?t ?h ?gr ?p ?ps] =>
        destruct (consume g t h gr p ps) as [[prevPt' ps']|] eqn:Hc
    end; [|exact I].
    apply (consume_one_polygon k) in Hc; [|exact Hk].
    simpl.
    destruct (findPoint prevPt' (segList st) aTolerance)
      as [graphic' segList'| |] eqn:Hf.
    + apply IH. exact Hc.
    + destruct (close_enough startPt prevPt' aTolerance); [exact Hc|].
      destruct holeNum as [[hole num]|]; cbn [report aPolygons]; [|exact Hc].
      destruct (Hole_SetClosed_one_polygon k num false ps' Hc Hn)
        as (ps'' & -> & Hk'').
      exact Hk''.
    + eapply findPoint_BadIndex; eassumption.
Qed.

Lemma hole_loop_defined (aTolerance : Z) (fuel : nat) :
  forall (holeNum : Z) (st : state),
  -1 <= holeNum ->
  one_polygon (Z.to_nat (holeNum + 2)) (aPolygons st) ->
  match hole_loop G fuel aTolerance holeNum st with
  | OutOfRange => INT_MAX <= aTolerance
  | _ => True
  end.
Proof.
  induction fuel as [|fuel IH]; intros holeNum st Hh Hk.
  - simpl. destruct (segList st); exact I.
  - cbn [hole_loop]. destruct (segList st) as [|graphic rest] eqn:Hs; [exact I|].
    destruct (NewHole_one_polygon _ _ Hk) as (Hk' & _).
    destruct (NewHole (aPolygons st)) as [ps hole]. simpl in Hk'.
    replace (S (Z.to_nat (holeNum + 2)))
      with (Z.to_nat (holeNum + 1 + 2)) in Hk' by lia.
    destruct (GetShape graphic) eqn:Hshape;
      try (apply IH; [lia|apply AppendAll_one_polygon; exact Hk']).
    all: match goal with
         | |- context [chain_walk G ?f ?t ?h ?s ?g ?p ?st0] =>
             pose proof (chain_walk_defined (Z.to_nat (holeNum + 1 + 2))
                           t h s f ltac:(simpl; lia) g p st0
                           ltac:(apply Append_one_polygon; exact Hk')) as Hcw;
             destruct (chain_walk G f t h s g p st0) as [st'|st'| |]
         end;
         try exact I; try exact Hcw; apply IH; [lia|exact Hcw].
Qed.

Lemma build_outline_defined (aTolerance : Z) (graphic : DRAWSEGMENT)
    (st : state) :
  aPolygons st = [] ->
  match build_outline G aTolerance graphic st with
  | Normal st' => one_polygon 1 (aPolygons st')
  | OutOfRange => INT_MAX <= aTolerance
  | ReturnFalse _ | OutOfFuel => True
  end.
Proof.
  intros Hps.
  assert (Hnew : one_polygon 1 (NewOutline (aPolygons st))).
  { rewrite Hps. eexists. split; reflexivity. }
  unfold build_outline, TransformCircleToPolygon.
  destruct (GetShape graphic) eqn:Hshape;
    try (apply AppendAll_one_polygon; exact Hnew).
  all: apply chain_walk_defined;
       [exact I|apply Append_one_polygon; exact Hnew].
Qed.

(** A call entered with an empty [aPolygons] leaves what C++ defines only
    with a tolerance at or above the sentinel of [findPoint]; with
    polygons already in [aPolygons], [Hole( 0, holeNum )] is a contour of
    the first of them and need not be there. *)
Lemma ConvertOutlineToPolygon_defined (aSegList : list DRAWSEGMENT)
    (aTolerance : Z) :
  match ConvertOutlineToPolygon G aSegList [] aTolerance with
  | Returned _ _ => True
  | Undefined => INT_MAX <= aTolerance
  | Diverged => False
  end.
Proof.
  pose proof (ConvertOutlineToPolygon_account aSegList [] aTolerance) as Hacc.
  destruct (ConvertOutlineToPolygon G aSegList [] aTolerance) eqn:Hrun;
    [exact I| |exact Hacc].
  clear Hacc. revert Hrun. unfold ConvertOutlineToPolygon.
  destruct aSegList as [|g0 rest] eqn:Hl; [discriminate|].
  rewrite <- Hl.
  assert (Hne : aSegList <> []) by (rewrite Hl; discriminate).
  pose proof (find_xmin_in_range aSegList aTolerance Hne) as Hx.
  set (xmini := (find_xmin G aSegList aTolerance).2) in *.
  cbn [segList initial_state].
  destruct (aSegList !! xmini) as [graphic|] eqn:Hg.
  2:{ apply lookup_ge_None in Hg. lia. }
  set (st0 := set_segList (delete xmini aSegList) (initial_state aSegList [])).
  pose proof (build_outline_defined aTolerance graphic st0 eq_refl) as Hb.
  destruct (build_outline G aTolerance graphic st0) as [st1|st1| |];
    [|discriminate|intros _; exact Hb|discriminate].
  pose proof (hole_loop_defined aTolerance (length (segList st1)) (-1) st1
                ltac:(lia) Hb) as Hh.
  destruct (hole_loop G (length (segList st1)) aTolerance (-1) st1)
    as [st2|st2| |]; [|discriminate|intros _; exact Hh|discriminate].
  unfold post_validation.
  destruct (check_segments (IterateSegmentsWithHoles (aPolygons st2)));
    discriminate.
Qed.

End EngineFacts.

(** * The claims of the specification *)

(** ** Empty input *)

(** C10: for the empty input list and any tolerance,
    [ConvertOutlineToPolygon] returns [true] and leaves the polygon set as
    it was: no outline, hole or point is added, and nothing is reported. *)
Theorem C10_empty_input_returns_true (G : GEOMETRY) (ps : SHAPE_POLY_SET)
    (aTolerance : Z) :
  exists st,
    ConvertOutlineToPolygon G [] ps aTolerance = Returned true st /\
    aPolygons st = ps /\ aErrorText st = [] /\ aErrorLocation st = None.
Proof.
  exists (initial_state [] ps). repeat split.
Qed.

(** ** Termination *)

(** C8 as stated fails: the total number of loop iterations is not
    bounded by the initial pool size.  Two segments that do not meet make
    a pool of two; the walk of the outline runs once, the hole loop once
    and the walk of its hole once: three iterations. *)
Lemma C8_iterations_exceed_pool_size :
  exists value st,
    ConvertOutlineToPolygon still_geometry two_segments [] 0
    = Returned value st /\
    walk_iterations st = 2%nat /\ hole_iterations st = 1%nat /\
    ~ (walk_iterations st + hole_iterations st <= length two_segments)%nat.
Proof.
  eexists _, _. split; [vm_compute; reflexivity|].
  split; [reflexivity|]. split; [reflexivity|]. simpl. lia.
Qed.

(** C8, amended: entered with an empty polygon set and a tolerance below
    [INT_MAX], [ConvertOutlineToPolygon] returns on every input list.  A
    successful [findPoint] takes exactly one primitive out of the pool
    and a failed one leaves the pool as it is; the chain-walk loops run
    at most [n] times in all and the hole loop at most [n - 1] times, [n]
    the size of the input list, so that the loops together run at most
    [2 n - 1] times. *)
Theorem C8_terminates_within_twice_pool_size (G : GEOMETRY)
    (aSegList : list DRAWSEGMENT) (aTolerance : Z) (aPoint : Point) :
  aTolerance < INT_MAX ->
  match findPoint aPoint aSegList aTolerance with
  | Found _ aList' => length aSegList = S (length aList')
  | NotFound => True
  | BadIndex => False
  end /\
  exists value st,
    ConvertOutlineToPolygon G aSegList [] aTolerance = Returned value st /\
    (walk_iterations st <= length aSegList)%nat /\
    (hole_iterations st <= pred (length aSegList))%nat /\
    (walk_iterations st + hole_iterations st <= 2 * length aSegList - 1)%nat.
Proof.
  intros Hlt. split.
  - destruct (findPoint aPoint aSegList aTolerance) eqn:Hf; [|exact I|].
    + eapply findPoint_Found_length. exact Hf.
    + apply findPoint_BadIndex in Hf. lia.
  - pose proof (ConvertOutlineToPolygon_defined G aSegList aTolerance) as Hd.
    pose proof (ConvertOutlineToPolygon_account G aSegList [] aTolerance) as H.
    destruct (ConvertOutlineToPolygon G aSegList [] aTolerance)
      as [value st| |] eqn:Hrun; [|lia|contradiction].
    exists value, st. split; [reflexivity|].
    destruct H as (Hw & Hh & _). lia.
Qed.

Lemma C8_terminates_within_twice_pool_size_witness :
  0 < INT_MAX /\
  exists value st,
    ConvertOutlineToPolygon still_geometry two_segments [] 0
    = Returned value st /\
    (walk_iterations st <= 2)%nat /\
    (hole_iterations st <= 1)%nat /\
    (walk_iterations st + hole_iterations st <= 3)%nat.
Proof.
  split; [reflexivity|].
  apply (C8_terminates_within_twice_pool_size still_geometry two_segments 0
           (0, 0)).
  reflexivity.
Defined.

(** ** findPoint *)

(** C3, at the input where the code leaves the claim: with an empty pool
    and the limit [INT_MAX], [min_d] is still [INT_MAX] after the loop,
    [min_d <= aLimit] holds, and [findPoint] reads [aList[0]] of an empty
    vector instead of returning NULL. *)
Theorem C3_findPoint_empty_pool_at_sentinel :
  findPoint (0, 0) [] INT_MAX = BadIndex.
Proof. vm_compute. reflexivity. Qed.

(** ** Unclosed chains *)

(** C1, at the input where the code leaves the claim: one segment from
    [(0, 0)] to [(10, 0)] at tolerance 0.  The walk of the outline ends at
    [(0, 0)], which is reported, and the call returns [false]; but the
    outline is still marked closed, and the collision check, finding the
    implicit closing edge to be the first edge reversed, moves the error
    location to [(10, 0)]. *)
Theorem C1_unclosed_outline_stays_closed (G : GEOMETRY) :
  ConvertOutlineToPolygon G [segment (0, 0) (10, 0)] [] 0 =
  Returned false
    (mkState [[mkChain [(10, 0); (0, 0)] true]] []
             [UnableToFindEdge (0, 0)] (Some (10, 0)) false 1 0).
Proof. vm_compute. reflexivity. Qed.

(** ** The square *)

(** C2: for the four segments of the square at tolerance 0,
    [ConvertOutlineToPolygon] returns [true] with one outline and no
    hole; the outline is the five points [(10, 0)], [(0, 0)], [(0, 10)],
    [(10, 10)], [(10, 0)]: the four corners from the start point on, and
    the start point once more, emitted as the far end of the last
    segment. *)
Theorem C2_square_outline (G : GEOMETRY) :
  exists st,
    ConvertOutlineToPolygon G square [] 0 = Returned true st /\
    aPolygons st =
      [[mkChain [(10, 0); (0, 0); (0, 10); (10, 10); (10, 0)] true]] /\
    OutlineCount (aPolygons st) = 1%nat /\
    HoleCount (aPolygons st) 0 = 0%nat /\
    aErrorText st = [].
Proof.
  eexists. split; [vm_compute; reflexivity|]. repeat split.
Qed.

(** C2 as stated fails: the outline is not the four corner points in any
    order. *)
Lemma C2_square_not_four_points :
  ~ (exists st pts,
       ConvertOutlineToPolygon still_geometry square [] 0 = Returned true st /\
       aPolygons st = [[mkChain pts true]] /\
       pts ≡ₚ square_corners).
Proof.
  intros (st & pts & Hr & Hp & Hperm).
  vm_compute in Hr. injection Hr as <-. simpl in Hp.
  injection Hp as <-. apply Permutation_length in Hperm.
  simpl in Hperm. discriminate.
Qed.

(** ** Tolerance *)

(** C7 as stated fails: the three triangles convert to a closed result at
    tolerance 0 and to an unclosed one at tolerance 2, where the walk of
    the outline goes on into the second and the third triangle and ends at
    [(14, 0)], 4 away from its start. *)
Lemma C7_larger_tolerance_unclosed :
  0 <= 2 /\
  (exists st,
     ConvertOutlineToPolygon still_geometry three_triangles [] 0
     = Returned true st) /\
  (exists st,
     ConvertOutlineToPolygon still_geometry three_triangles [] 2
     = Returned false st /\
     UnableToFindEdge (14, 0) ∈ aErrorText st).
Proof.
  split; [lia|]. split.
  - eexists. vm_compute. reflexivity.
  - eexists. split; [vm_compute; reflexivity|].
    simpl. apply list_elem_of_singleton. reflexivity.
Qed.

(** C7, amended: for tolerances [t1 <= t2], two points close enough at
    [t1] are close enough at [t2], and a [findPoint] search that finds a
    primitive at [t1] finds the same primitive at [t2] and leaves the same
    pool. *)
Theorem C7_tolerance_monotone_steps (startPt prevPt aPoint : Point)
    (aList aList' : list DRAWSEGMENT) (graphic : DRAWSEGMENT) (t1 t2 : Z) :
  t1 <= t2 ->
  close_enough startPt prevPt t1 = true ->
  findPoint aPoint aList t1 = Found graphic aList' ->
  close_enough startPt prevPt t2 = true /\
  findPoint aPoint aList t2 = Found graphic aList'.
Proof.
  intros Ht Hc Hf. split.
  - eapply close_enough_mono; eassumption.
  - eapply findPoint_mono; eassumption.
Qed.

Lemma C7_tolerance_monotone_steps_witness :
  close_enough (10, 0) (11, 0) 2 = true /\
  findPoint (10, 0) square 2 = Found (segment (0, 0) (10, 0)) (tail square).
Proof.
  apply (C7_tolerance_monotone_steps (10, 0) (11, 0) (10, 0) square
           (tail square) (segment (0, 0) (10, 0)) 1 2).
  - lia.
  - vm_compute. reflexivity.
  - vm_compute. reflexivity.
Defined.

(** ** Post-validation *)

Lemma check_against_cons (seg1 seg2 : SEG) (rest : list SEG) :
  check_against seg1 (seg2 :: rest) =
  match rejected seg1 seg2 with
  | Some pt => Some pt
  | None => check_against seg1 rest
  end.
Proof.
  unfold rejected, same_edge. simpl.
  destruct (SEG_eqb seg1 seg2 || Point_eqb seg1.1 seg2.2 && Point_eqb seg1.2 seg2.1);
    reflexivity.
Qed.

(** The inner loop stops at the first segment it rejects with [seg1]. *)
Lemma check_against_rejects (seg1 seg2 : SEG) (mid post : list SEG) :
  is_Some (rejected seg1 seg2) ->
  exists pt b mid' post',
    check_against seg1 (mid ++ seg2 :: post) = Some pt /\
    mid ++ seg2 :: post = mid' ++ b :: post' /\
    rejected seg1 b = Some pt.
Proof.
  intros [q Hq]. induction mid as [|s mid IH].
  - exists q, seg2, [], post. simpl app. rewrite check_against_cons, Hq.
    split; [reflexivity|]. split; reflexivity.
  - simpl app. rewrite check_against_cons.
    destruct (rejected seg1 s) as [pt|] eqn:Hs.
    + exists pt, s, [], (mid ++ seg2 :: post).
      split; [reflexivity|]. split; [reflexivity|exact Hs].
    + destruct IH as (pt & b & mid' & post' & Hc & Heq & Hr).
      exists pt, b, (s :: mid'), post'.
      split; [exact Hc|]. split; [simpl; rewrite Heq; reflexivity|exact Hr].
Qed.

Lemma check_against_Some (seg1 : SEG) (rest : list SEG) (pt : Point) :
  check_against seg1 rest = Some pt ->
  exists b mid post, rest = mid ++ b :: post /\ rejected seg1 b = Some pt.
Proof.
  induction rest as [|s rest IH]; [discriminate|].
  rewrite check_against_cons.
  destruct (rejected seg1 s) as [q|] eqn:Hs.
  - intros [= <-]. exists s, [], rest. split; [reflexivity|exact Hs].
  - intros H. destruct (IH H) as (b & mid & post & -> & Hr).
    exists b, (s :: mid), post. split; [reflexivity|exact Hr].
Qed.

(** The scan rejects a set of segments that holds a rejected pair, at the
    location of a rejected pair. *)
Lemma check_segments_rejects (segs : list SEG) (s1 s2 : SEG) :
  in_order s1 s2 segs ->
  is_Some (rejected s1 s2) ->
  exists pt a b,
    check_segments segs = Some pt /\ in_order a b segs /\
    rejected a b = Some pt.
Proof.
  intros (pre & mid & post & ->) Hr.
  induction pre as [|s pre IH].
  - simpl.
    destruct (check_against_rejects s1 s2 mid post Hr)
      as (pt & b & mid' & post' & -> & -> & Hb).
    exists pt, s1, b. split; [reflexivity|]. split; [|exact Hb].
    exists [], mid', post'. reflexivity.
  - simpl.
    destruct (check_against s (pre ++ s1 :: mid ++ s2 :: post)) as [pt|] eqn:Hc.
    + apply check_against_Some in Hc as (b & mid' & post' & Heq & Hb).
      exists pt, s, b. split; [reflexivity|]. split; [|exact Hb].
      exists [], mid', post'. simpl. rewrite Heq. reflexivity.
    + destruct IH as (pt & a & b & -> & (pre' & mid' & post' & Heq) & Hb).
      exists pt, a, b. split; [reflexivity|]. split; [|exact Hb].
      exists (s :: pre'), mid', post'. simpl. rewrite Heq. reflexivity.
Qed.


Lemma rejected_is_Some (s1 s2 : SEG) :
  same_edge s1 s2 = true \/ is_Some (SEG_Intersect s1 s2) ->
  is_Some (rejected s1 s2).
Proof.
  unfold rejected. intros [->|H]; [eauto|].
  destruct (same_edge s1 s2); eauto.
Qed.

Lemma SEG_eqb_eq (a b : SEG) : SEG_eqb a b = true <-> a = b.
Proof.
  destruct a as [a1 a2], b as [b1 b2]. unfold SEG_eqb. simpl.
  rewrite andb_true_iff, !Point_eqb_eq. split.
  - intros [-> ->]. reflexivity.
  - intros [= -> ->]. auto.
Qed.

(** What the test of the check says of the end points. *)
Lemma same_edge_eq (a b : SEG) :
  same_edge a b = true <-> a = b \/ (a.1 = b.2 /\ a.2 = b.1).
Proof.
  unfold same_edge.
  rewrite orb_true_iff, andb_true_iff, SEG_eqb_eq, !Point_eqb_eq. reflexivity.
Qed.




(** The three cases at work: the same edge twice is reported at its first
    point [(3, 4)], an edge and its reverse at the first point [(0, 0)] of
    the edge, and the four segments of an X at the crossing point
    [(5, 5)], which the whole call hands back with [false]. *)
Lemma post_validation_locations (G : GEOMETRY) :
  post_validation doubled_triangle
  = Returned false
      (mkState (aPolygons doubled_triangle) [] [] (Some (3, 4)) true O O) /\
  post_validation there_and_back
  = Returned false
      (mkState (aPolygons there_and_back) [] [] (Some (0, 0)) true O O) /\
  ConvertOutlineToPolygon G bowtie_segments [] 0
  = Returned false
      (mkState [[mkChain [(10, 10); (0, 0); (0, 10); (10, 0); (10, 10)] true]]
               [] [] (Some (5, 5)) true 4 0).
Proof. split; [|split]; vm_compute; reflexivity. Qed.

(** C5 as stated fails: the outline from [(0, 0)] to [(10, 0)] and back
    has an edge and its reverse and no two segments that cross, the return
    value in waiting is [true], and post-validation returns [false]. *)
Lemma C5_reverse_duplicate_is_fatal :
  IterateSegmentsWithHoles (aPolygons there_and_back)
  = [((0, 0), (10, 0)); ((10, 0), (0, 0))] /\
  SEG_Intersect ((0, 0), (10, 0)) ((10, 0), (0, 0)) = None /\
  polygonComplete there_and_back = true /\
  post_validation there_and_back
  = Returned false (set_location (0, 0) there_and_back).
Proof. repeat split. Qed.

(** C5, amended: in post-validation an exact reverse-duplicate edge is
    fatal to the operation, as a true geometric intersection is: with
    either among the segments, the function returns [false]. *)
Theorem C5_reverse_duplicate_and_crossing_fatal (st : state) (s1 s2 : SEG) :
  in_order s1 s2 (IterateSegmentsWithHoles (aPolygons st)) ->
  (s1.1 = s2.2 /\ s1.2 = s2.1) \/ is_Some (SEG_Intersect s1 s2) ->
  exists st', post_validation st = Returned false st'.
Proof.
  intros Hin Hbad.
  assert (Hr : is_Some (rejected s1 s2)).
  { apply rejected_is_Some. destruct Hbad as [[Ha Hb]|Hx]; [left|right; exact Hx].
    unfold same_edge. apply orb_true_iff. right.
    apply andb_true_iff. split; apply Point_eqb_eq; assumption. }
  destruct (check_segments_rejects _ s1 s2 Hin Hr) as (pt & a & b & Hc & _).
  exists (set_location pt st). unfold post_validation. rewrite Hc. reflexivity.
Qed.

Lemma C5_reverse_duplicate_and_crossing_fatal_witness :
  exists st', post_validation there_and_back = Returned false st'.
Proof.
  apply (C5_reverse_duplicate_and_crossing_fatal there_and_back
           ((0, 0), (10, 0)) ((10, 0), (0, 0))).
  - exists [], [], []. reflexivity.
  - left. split; reflexivity.
Defined.

(** ** What an unclosed chain leaves behind *)

(** The turn of a chain walk in which [findPoint] finds nothing and
    [prevPt] is not close enough to [startPt]: the point is reported and
    becomes the error location, the return value is cleared, the pool and
    the points emitted so far are kept, and the walk ends without
    [return false].  The contour is marked open in the walk of a hole,
    where the contour that [Hole( 0, holeNum )] names has to be there,
    and left as it is in the walk of the outline. *)
Lemma chain_walk_unclosed_step (G : GEOMETRY) (fuel : nat) (aTolerance : Z)
    (holeNum : option (Z * Z)) (startPt prevPt prevPt' : Point)
    (graphic : DRAWSEGMENT) (st : state) (ps : SHAPE_POLY_SET) :
  consume G aTolerance (match holeNum with Some (hole, _) => hole | None => -1 end)
          graphic prevPt (aPolygons st) = Some (prevPt', ps) ->
  findPoint prevPt' (segList st) aTolerance = NotFound ->
  close_enough startPt prevPt' aTolerance = false ->
  match
    match holeNum with
    | Some (_, n) => Hole_SetClosed 0 n false ps
    | None => Some ps
    end
  with
  | Some ps' =>
      exists st',
        chain_walk G (S fuel) aTolerance holeNum startPt graphic prevPt st
        = Normal st' /\
        aErrorLocation st' = Some prevPt' /\
        aErrorText st' = aErrorText st ++ [UnableToFindEdge prevPt'] /\
        polygonComplete st' = false /\
        segList st' = segList st /\
        aPolygons st' = ps'
  | None =>
      chain_walk G (S fuel) aTolerance holeNum startPt graphic prevPt st
      = OutOfRange
  end.
Proof.
  intros Hc Hf Hclose. cbn [chain_walk].
  change (aPolygons (tick_walk st)) with (aPolygons st). rewrite Hc.
  change (segList (set_polygons ps (tick_walk st))) with (segList st).
  rewrite Hf, Hclose.
  destruct holeNum as [[hole n]|];
    [ change (aPolygons (report (UnableToFindEdge prevPt') prevPt'
                                (set_polygons ps (tick_walk st)))) with ps;
      destruct (Hole_SetClosed 0 n false ps); [|reflexivity] | ];
    eexists; repeat split.
Qed.

(** Whatever else happens afterwards, a call that reported an unclosed
    contour returns [false]. *)
Lemma unclosed_chain_returns_false (G : GEOMETRY) (aSegList : list DRAWSEGMENT)
    (ps : SHAPE_POLY_SET) (aTolerance : Z) (value : bool) (st : state) (p : Point) :
  ConvertOutlineToPolygon G aSegList ps aTolerance = Returned value st ->
  UnableToFindEdge p ∈ aErrorText st ->
  value = false.
Proof.
  intros Hr Hp.
  pose proof (ConvertOutlineToPolygon_account G aSegList ps aTolerance) as H.
  rewrite Hr in H. destruct H as (_ & _ & H). apply H. exists p. exact Hp.
Qed.

(** In the walk of a hole the contour is marked open: two segments that
    do not meet give an outline still marked closed and a hole marked
    open. *)
Lemma unclosed_hole_is_marked_open (G : GEOMETRY) :
  exists st,
    ConvertOutlineToPolygon G [segment (0, 0) (10, 0); segment (20, 0) (30, 0)]
                            [] 0
    = Returned false st /\
    aPolygons st = [[mkChain [(10, 0); (0, 0)] true;
                     mkChain [(30, 0); (20, 0)] false]] /\
    aErrorText st = [UnableToFindEdge (0, 0); UnableToFindEdge (20, 0)].
Proof.
  eexists. split; [vm_compute; reflexivity|]. split; reflexivity.
Qed.

(** The contour that is marked open is one of the first polygon of the
    set, while the points of the hole go to the last one.  Entered with a
    polygon of one contour already in [aPolygons], the two segments that
    do not meet make the call ask that polygon for a second contour;
    entered with a polygon of two, they mark its hole and leave their own
    marked closed. *)
Lemma unclosed_hole_of_first_polygon (G : GEOMETRY) :
  ConvertOutlineToPolygon G two_segments [[mkChain [(1, 1)] true]] 0
  = Undefined /\
  exists st,
    ConvertOutlineToPolygon G two_segments
      [[mkChain [(1, 1)] true; mkChain [(2, 2)] true]] 0
    = Returned false st /\
    aPolygons st = [[mkChain [(1, 1)] true; mkChain [(2, 2)] false];
                    [mkChain [(10, 0); (0, 0)] true;
                     mkChain [(30, 0); (20, 0)] true]].
Proof.
  split; [vm_compute; reflexivity|].
  eexists. split; [vm_compute; reflexivity|reflexivity].
Qed.

(** ** The board outline *)

Lemma fallback_outline_rectangle (G : GEOMETRY) (aBoard : BOARD)
    (aOutlines : SHAPE_POLY_SET) :
  fallback_outline G aBoard aOutlines =
  [[mkChain (box_corners (fallback_box G aBoard)) true]].
Proof. reflexivity. Qed.

(** C6, at the input where the code leaves the claim: a board whose edge
    is the one segment from [(0, 0)] to [(10, 0)], an empty [aOutlines]
    and the tolerance [INT_MAX].  The segment goes out as the outline and
    the walk looks for the next primitive at [(0, 0)] in a pool that is
    now empty; [findPoint] reads [aList[0]] there, and the function never
    comes to the rectangle it falls back on. *)
Theorem C6_one_segment_board_at_sentinel (G : GEOMETRY) :
  edge_segments one_segment_board = [segment (0, 0) (10, 0)] /\
  findPoint (0, 0) [] INT_MAX = BadIndex /\
  BuildBoardPolygonOutlines G one_segment_board [] INT_MAX = BoardUndefined.
Proof. split; [reflexivity|]. split; vm_compute; reflexivity. Qed.

(** The same end for a board whose edge is two segments that do not
    meet, at tolerance 0, when [aOutlines] holds a polygon on entry: the
    contour of that polygon that line 712 names is not there. *)
Lemma board_outline_entered_with_a_polygon (G : GEOMETRY) :
  BuildBoardPolygonOutlines G two_segment_board [[mkChain [(1, 1)] true]] 0
  = BoardUndefined.
Proof. vm_compute. reflexivity. Qed.

(** ** Placement of polygons *)






(** ** Post-validation within the whole call *)

(** A call on a list that is not empty returns [true] only through the
    collision check, with no pair of segments rejected. *)
Lemma ConvertOutlineToPolygon_validated (G : GEOMETRY)
    (aSegList : list DRAWSEGMENT) (ps : SHAPE_POLY_SET) (aTolerance : Z)
    (st : state) :
  aSegList <> [] ->
  ConvertOutlineToPolygon G aSegList ps aTolerance = Returned true st ->
  check_segments (IterateSegmentsWithHoles (aPolygons st)) = None.
Proof.
  intros Hne. unfold ConvertOutlineToPolygon.
  destruct aSegList as [|g0 rest]; [contradiction|].
  destruct (_ !! _) as [graphic|]; [|discriminate].
  destruct (build_outline _ _ _ _) as [st1|st1| |]; try discriminate.
  destruct (hole_loop _ _ _ _ _) as [st2|st2| |]; try discriminate.
  unfold post_validation.
  destruct (check_segments (IterateSegmentsWithHoles (aPolygons st2))) eqn:Hc;
    [discriminate|].
  intros [= _ <-]. exact Hc.
Qed.

(** So a call whose polygon set holds two segments with the same end
    points, or two segments that cross, returns [false]. *)
Lemma ConvertOutlineToPolygon_rejects (G : GEOMETRY)
    (aSegList : list DRAWSEGMENT) (ps : SHAPE_POLY_SET) (aTolerance : Z)
    (value : bool) (st : state) (s1 s2 : SEG) :
  aSegList <> [] ->
  ConvertOutlineToPolygon G aSegList ps aTolerance = Returned value st ->
  in_order s1 s2 (IterateSegmentsWithHoles (aPolygons st)) ->
  s1 = s2 \/ (s1.1 = s2.2 /\ s1.2 = s2.1) \/ is_Some (SEG_Intersect s1 s2) ->
  value = false.
Proof.
  intros Hne Hr Hin Hbad. destruct value; [|reflexivity].
  pose proof (ConvertOutlineToPolygon_validated G aSegList ps aTolerance st Hne Hr)
    as Hnone.
  assert (Hrej : is_Some (rejected s1 s2)).
  { apply rejected_is_Some. destruct Hbad as [He|[Hrev|Hx]].
    - left. apply same_edge_eq. left. exact He.
    - left. apply same_edge_eq. right. exact Hrev.
    - right. exact Hx. }
  destruct (check_segments_rejects _ s1 s2 Hin Hrej)
    as (pt & a & b & Hc & _).
  rewrite Hnone in Hc. discriminate.
Qed.

(** * Further properties of the code *)

(** ** What every step of a call keeps *)

Section Stability.

Context (G : GEOMETRY) (P : state -> Prop) (HP : stable P).

Lemma stable_AppendAll (pts : list Point) (aHole : Z) :
  forall st, P st -> P (set_polygons (AppendAll pts aHole (aPolygons st)) st).
Proof.
  induction pts as [|pt pts IH]; intros st Hst.
  - destruct st. exact Hst.
  - pose proof (stable_polygons P HP st _ (step_Append pt aHole (aPolygons st)) Hst)
      as H1.
    apply IH in H1. exact H1.
Qed.

Lemma consume_stable (aTolerance aHole : Z) (graphic : DRAWSEGMENT)
    (prevPt prevPt' : Point) (st : state) (ps' : SHAPE_POLY_SET) :
  consume G aTolerance aHole graphic prevPt (aPolygons st) = Some (prevPt', ps') ->
  P st -> P (set_polygons ps' st).
Proof.
  unfold consume. intros Hc Hst.
  destruct (GetShape graphic); try discriminate.
  - injection Hc as _ <-. apply (stable_polygons P HP). constructor. exact Hst.
  - destruct (negb (close_enough prevPt (GetArcStart graphic) aTolerance));
      injection Hc as _ <-; apply stable_AppendAll; exact Hst.
  - injection Hc as _ <-. apply stable_AppendAll. exact Hst.
Qed.

Lemma consume_None (aTolerance aHole : Z) (graphic : DRAWSEGMENT)
    (prevPt : Point) (ps : SHAPE_POLY_SET) :
  consume G aTolerance aHole graphic prevPt ps = None ->
  closed_shape (GetShape graphic) = true.
Proof.
  unfold consume. destruct (GetShape graphic); try discriminate; try reflexivity.
  destruct (negb (close_enough prevPt (GetArcStart graphic) aTolerance));
    discriminate.
Qed.

Lemma chain_walk_stable (aTolerance : Z) (holeNum : option (Z * Z))
    (startPt : Point) (fuel : nat) :
  forall (graphic : DRAWSEGMENT) (prevPt : Point) (st : state),
  P st ->
  match chain_walk G fuel aTolerance holeNum startPt graphic prevPt st with
  | Normal st' => P st'
  | ReturnFalse st' => aborted P st'
  | OutOfRange | OutOfFuel => True
  end.
Proof.
  induction fuel as [|fuel IH]; intros graphic prevPt st Hst; [exact I|].
  cbn [chain_walk].
  match goal with
  | |- context [consume ?g ?t ?h ?gr ?p ?ps] =>
      destruct (consume g t h gr p ps) as [[prevPt' ps']|] eqn:Hc
  end.
  - apply (stable_tick_walk P HP) in Hst.
    pose proof (consume_stable _ _ _ _ _ _ _ Hc Hst) as H1.
    change (segList (set_polygons ps' (tick_walk st))) with (segList st).
    destruct (findPoint prevPt' (segList st) aTolerance)
      as [graphic' segList'| |]; [| |exact I].
    + apply IH. apply (stable_segList P HP). exact H1.
    + destruct (close_enough startPt prevPt' aTolerance); [exact H1|].
      pose proof (stable_unclosed P HP _ prevPt' H1) as H2.
      destruct holeNum as [[hole n]|]; [|exact H2].
      match goal with
      | |- context [Hole_SetClosed 0 n false ?x] => change x with ps'
      end.
      destruct (Hole_SetClosed 0 n false ps') as [ps''|] eqn:Hsc; [|exact I].
      exact (stable_polygons P HP
               (set_incomplete (report (UnableToFindEdge prevPt') prevPt'
                                       (set_polygons ps' (tick_walk st))))
               ps'' (step_SetClosed n ps' ps'' Hsc) H2).
  - exists (tick_walk st), (GetShape graphic), (GetPosition graphic).
    split; [apply (stable_tick_walk P HP); exact Hst|].
    split; [|reflexivity].
    eapply consume_None. exact Hc.
Qed.

Lemma hole_loop_stable (aTolerance : Z) (fuel : nat) :
  forall (holeNum : Z) (st : state),
  P st ->
  match hole_loop G fuel aTolerance holeNum st with
  | Normal st' => P st' /\ segList st' = []
  | ReturnFalse st' => aborted P st'
  | OutOfRange | OutOfFuel => True
  end.
Proof.
  induction fuel as [|fuel IH]; intros holeNum st Hst.
  - cbn [hole_loop]. destruct (segList st) eqn:Hs; [auto|exact I].
  - cbn [hole_loop]. destruct (segList st) as [|graphic rest] eqn:Hs; [auto|].
    pose proof (stable_polygons P HP st _ (step_NewHole (aPolygons st)) Hst) as H1.
    destruct (NewHole (aPolygons st)) as [ps hole]. cbn [fst] in H1.
    apply (stable_segList P HP _ rest) in H1.
    apply (stable_tick_hole P HP) in H1.
    destruct (GetShape graphic);
      try (apply IH; apply stable_AppendAll; exact H1).
    all: match goal with
         | |- context [chain_walk G ?f ?t ?h ?s ?g ?p ?st0] =>
             pose proof (chain_walk_stable t h s f g p st0) as Hcw;
             destruct (chain_walk G f t h s g p st0) as [st'|st'| |]
         end;
         try exact I;
         try (apply IH); apply Hcw;
         apply (stable_polygons P HP _ _ (step_Append _ _ _) H1).
Qed.

(** The whole call, for a property that holds when the outline has been
    started. *)
Lemma ConvertOutlineToPolygon_stable (aSegList : list DRAWSEGMENT)
    (ps : SHAPE_POLY_SET) (aTolerance : Z) :
  (forall l, P (mkState (NewOutline ps) l [] None true O O)) ->
  (forall l c r,
     P (mkState (TransformCircleToPolygon G ps c r aTolerance) l [] None true O O)) ->
  aSegList <> [] ->
  match ConvertOutlineToPolygon G aSegList ps aTolerance with
  | Returned value st => returned_through P value st
  | Undefined | Diverged => True
  end.
Proof.
  intros Hnew Hcircle Hne. unfold ConvertOutlineToPolygon.
  destruct aSegList as [|g0 rest]; [contradiction|].
  destruct (_ !! _) as [graphic|]; [|exact I].
  match goal with
  | |- context [build_outline G ?t ?g ?st0] =>
      assert (Hb : match build_outline G t g st0 with
                   | Normal st' => P st'
                   | ReturnFalse st' => aborted P st'
                   | OutOfRange | OutOfFuel => True
                   end);
      [|destruct (build_outline G t g st0) as [st1|st1| |]]
  end.
  - unfold build_outline.
    destruct (GetShape graphic);
      try apply Hcircle;
      try exact (stable_AppendAll _ (-1) (mkState (NewOutline ps) _ [] None true O O)
                                  (Hnew _)).
    all: match goal with
         | |- context [chain_walk G ?f ?t ?h ?s ?g ?p ?st0] =>
             apply (chain_walk_stable t h s f g p st0)
         end;
         apply (stable_polygons P HP (mkState (NewOutline ps) _ [] None true O O)
                                _ (step_Append _ _ _)); apply Hnew.
  - pose proof (hole_loop_stable aTolerance (length (segList st1)) (-1) st1 Hb)
      as Hh.
    destruct (hole_loop G (length (segList st1)) aTolerance (-1) st1)
      as [st2|st2| |]; try exact I.
    + destruct Hh as [H2 Hempty].
      destruct (post_validation st2) as [value st| |] eqn:Hpv; try exact I.
      left. exists st2. auto.
    + right. split; [reflexivity|exact Hh].
  - right. split; [reflexivity|exact Hb].
  - exact I.
  - exact I.
Qed.

End Stability.

(** ** What a return value comes with *)

Lemma clean_or_located_stable : stable clean_or_located.
Proof.
  split; unfold clean_or_located; simpl; try tauto.
  intros st p _. right. split; [reflexivity|eauto].
Qed.

Lemma clean_or_located_start (ps : SHAPE_POLY_SET) (l : list DRAWSEGMENT) :
  clean_or_located (mkState ps l [] None true O O).
Proof. left. repeat split. Qed.

(** How a call on a list that is not empty returned, with what is known
    of reports and locations. *)
Lemma returned_clean_or_located (G : GEOMETRY) (aSegList : list DRAWSEGMENT)
    (ps : SHAPE_POLY_SET) (aTolerance : Z) (value : bool) (st : state) :
  aSegList <> [] ->
  ConvertOutlineToPolygon G aSegList ps aTolerance = Returned value st ->
  returned_through clean_or_located value st.
Proof.
  intros Hne Hr.
  pose proof (ConvertOutlineToPolygon_stable G clean_or_located
                clean_or_located_stable aSegList ps aTolerance
                (fun l => clean_or_located_start _ l)
                (fun l c r => clean_or_located_start _ l) Hne) as H.
  rewrite Hr in H. exact H.
Qed.

(** X1: a call that returns [true] has reported nothing: the error text
    and the error location are as the caller passed them, and every
    primitive of the list has been taken out of the pool. *)
Theorem X1_true_return_is_silent (G : GEOMETRY) (aSegList : list DRAWSEGMENT)
    (ps : SHAPE_POLY_SET) (aTolerance : Z) (st : state) :
  ConvertOutlineToPolygon G aSegList ps aTolerance = Returned true st ->
  aErrorText st = [] /\ aErrorLocation st = None /\ segList st = [].
Proof.
  intros Hr. destruct aSegList as [|g0 rest] eqn:Hl.
  - injection Hr as <-. repeat split.
  - rewrite <- Hl in Hr.
    assert (Hne : aSegList <> []) by (rewrite Hl; discriminate).
    destruct (returned_clean_or_located G aSegList ps aTolerance true st Hne Hr)
      as [(st2 & Hst2 & Hpool & Hpv)|[Hv _]]; [|discriminate].
    unfold post_validation in Hpv.
    destruct (check_segments _); [discriminate|].
    injection Hpv as Hc <-.
    destruct Hst2 as [(_ & Ht & Hloc)|[Hc' _]]; [auto|congruence].
Qed.

Lemma X1_true_return_is_silent_witness :
  exists st,
    ConvertOutlineToPolygon still_geometry square [] 0 = Returned true st /\
    aErrorText st = [] /\ aErrorLocation st = None /\ segList st = [].
Proof.
  eexists. split; [vm_compute; reflexivity|].
  apply (X1_true_return_is_silent still_geometry square [] 0).
  vm_compute. reflexivity.
Defined.

(** X2: a call that returns [false] has written an error location. *)
Theorem X2_false_return_has_location (G : GEOMETRY)
    (aSegList : list DRAWSEGMENT) (ps : SHAPE_POLY_SET) (aTolerance : Z)
    (st : state) :
  ConvertOutlineToPolygon G aSegList ps aTolerance = Returned false st ->
  is_Some (aErrorLocation st).
Proof.
  intros Hr. destruct aSegList as [|g0 rest] eqn:Hl; [discriminate|].
  rewrite <- Hl in Hr.
  assert (Hne : aSegList <> []) by (rewrite Hl; discriminate).
  destruct (returned_clean_or_located G aSegList ps aTolerance false st Hne Hr)
    as [(st2 & Hst2 & Hpool & Hpv)|[_ (st2 & shape & pos & _ & _ & ->)]].
  - unfold post_validation in Hpv.
    destruct (check_segments _) as [pt|].
    + injection Hpv as <-. simpl. eauto.
    + injection Hpv as Hc <-.
      destruct Hst2 as [(Hc' & _)|[_ Hloc]]; [congruence|exact Hloc].
  - simpl. eauto.
Qed.

Lemma X2_false_return_has_location_witness :
  is_Some (aErrorLocation
             (mkState [[mkChain [(10, 0); (0, 0)] true]] []
                      [UnableToFindEdge (0, 0)] (Some (10, 0)) false 1 0)).
Proof.
  apply (X2_false_return_has_location still_geometry
           [segment (0, 0) (10, 0)] [] 0).
  vm_compute. reflexivity.
Defined.

(** ** Primitives a chain walk does not handle *)

Lemma only_unclosed_reports_stable : stable only_unclosed_reports.
Proof.
  split; unfold only_unclosed_reports; simpl; try tauto.
  intros st p H. apply Forall_app. split; [exact H|].
  constructor; [eauto|constructor].
Qed.

Lemma only_unclosed_reports_no_unsupported (st : state) (shape : STROKE_T) :
  only_unclosed_reports st -> UnsupportedType shape ∈ aErrorText st -> False.
Proof.
  unfold only_unclosed_reports. rewrite List.Forall_forall.
  intros H Hin. apply list_elem_of_In in Hin.
  destruct (H _ Hin) as [p Hp]. discriminate.
Qed.

(** X3: a report of an unsupported primitive ends the call: the call
    returns [false], the shape reported is a rectangle, a circle or a
    polygon, which a chain walk picked up through [findPoint], and the
    report is the last message of the error text. *)
Theorem X3_unsupported_report_ends_call (G : GEOMETRY)
    (aSegList : list DRAWSEGMENT) (ps : SHAPE_POLY_SET) (aTolerance : Z)
    (value : bool) (st : state) (shape : STROKE_T) :
  ConvertOutlineToPolygon G aSegList ps aTolerance = Returned value st ->
  UnsupportedType shape ∈ aErrorText st ->
  value = false /\ closed_shape shape = true /\
  list.last (aErrorText st) = Some (UnsupportedType shape).
Proof.
  intros Hr Hin. destruct aSegList as [|g0 rest] eqn:Hl.
  - injection Hr as _ <-. simpl in Hin. apply elem_of_nil in Hin. contradiction.
  - rewrite <- Hl in Hr.
    assert (Hne : aSegList <> []) by (rewrite Hl; discriminate).
    pose proof (ConvertOutlineToPolygon_stable G only_unclosed_reports
                  only_unclosed_reports_stable aSegList ps aTolerance
                  (fun l => List.Forall_nil _) (fun l c r => List.Forall_nil _) Hne) as H.
    rewrite Hr in H.
    destruct H as [(st2 & Hst2 & _ & Hpv)
                  |[-> (st2 & shape' & pos & Hst2 & Hclosed & ->)]].
    + exfalso. apply (only_unclosed_reports_no_unsupported st2 shape Hst2).
      unfold post_validation in Hpv.
      destruct (check_segments _); injection Hpv as _ <-; exact Hin.
    + simpl in Hin. apply elem_of_app in Hin as [Hin|Hin].
      * exfalso. exact (only_unclosed_reports_no_unsupported st2 shape Hst2 Hin).
      * apply list_elem_of_singleton in Hin. injection Hin as ->.
        split; [reflexivity|]. split; [exact Hclosed|].
        simpl. apply last_snoc.
Qed.

Lemma X3_unsupported_report_ends_call_witness :
  exists value st,
    ConvertOutlineToPolygon still_geometry
      [segment (0, 0) (10, 0); rectangle (0, 0) (5, 5)] [] 0
    = Returned value st /\
    value = false /\ closed_shape S_RECT = true /\
    list.last (aErrorText st) = Some (UnsupportedType S_RECT).
Proof.
  eexists _, _. split; [vm_compute; reflexivity|].
  apply (X3_unsupported_report_ends_call still_geometry
           [segment (0, 0) (10, 0); rectangle (0, 0) (5, 5)] [] 0).
  - vm_compute. reflexivity.
  - vm_compute. apply list_elem_of_singleton. reflexivity.
Defined.

(** ** One outline *)

Lemma poly_step_length (ps ps' : SHAPE_POLY_SET) :
  poly_step ps ps' -> length ps' = length ps.
Proof.
  intros [pt aHole ps0|aHole ps0 ps1 H|ps0].
  - unfold Append. apply length_alter.
  - unfold Hole_SetClosed in H.
    destruct (ps0 !! O) as [poly|]; [|discriminate].
    destruct (poly !! Z.to_nat (aHole + 1)); [|discriminate].
    injection H as <-. apply length_alter.
  - unfold NewHole. simpl. apply length_alter.
Qed.

Lemma AppendAll_length (pts : list Point) (aHole : Z) :
  forall ps, length (AppendAll pts aHole ps) = length ps.
Proof.
  unfold AppendAll. induction pts as [|pt pts IH]; intros ps; simpl.
  - reflexivity.
  - rewrite IH. unfold Append. apply length_alter.
Qed.

Lemma outline_count_is_stable (ps : SHAPE_POLY_SET) :
  stable (outline_count_is ps).
Proof.
  split; unfold outline_count_is, OutlineCount; simpl; try tauto.
  intros st ps' Hstep. rewrite (poly_step_length _ _ Hstep). tauto.
Qed.

(** The number of polygons after a call on a list that is not empty. *)
Lemma outline_count_after_call (G : GEOMETRY) (aSegList : list DRAWSEGMENT)
    (ps : SHAPE_POLY_SET) (aTolerance : Z) (value : bool) (st : state) :
  aSegList <> [] ->
  ConvertOutlineToPolygon G aSegList ps aTolerance = Returned value st ->
  OutlineCount (aPolygons st) = S (OutlineCount ps).
Proof.
  intros Hne Hr.
  assert (Hnew : forall l,
            outline_count_is ps (mkState (NewOutline ps) l [] None true O O)).
  { intros l. unfold outline_count_is, OutlineCount, NewOutline. simpl.
    rewrite length_app. simpl. lia. }
  assert (Hcircle : forall l c r,
            outline_count_is ps
              (mkState (TransformCircleToPolygon G ps c r aTolerance) l []
                       None true O O)).
  { intros l c r.
    unfold outline_count_is, OutlineCount, TransformCircleToPolygon. simpl.
    rewrite AppendAll_length. unfold NewOutline.
    rewrite length_app. simpl. lia. }
  pose proof (ConvertOutlineToPolygon_stable G _
                (outline_count_is_stable ps) aSegList ps aTolerance
                Hnew Hcircle Hne) as H.
  rewrite Hr in H.
  destruct H as [(st2 & Hst2 & _ & Hpv)
                |[_ (st2 & shape' & pos & Hst2 & _ & ->)]].
  - unfold post_validation in Hpv.
    destruct (check_segments _); injection Hpv as _ <-; exact Hst2.
  - exact Hst2.
Qed.

(** X4: a call on a list that is not empty adds exactly one outline to the
    polygon set, and everything else it emits goes into holes of it: on
    return the set holds one polygon more than on entry, whatever the
    leftmost primitive is. *)
Theorem X4_one_outline_added (G : GEOMETRY) (aSegList : list DRAWSEGMENT)
    (ps : SHAPE_POLY_SET) (aTolerance : Z) (value : bool) (st : state) :
  aSegList <> [] ->
  ConvertOutlineToPolygon G aSegList ps aTolerance = Returned value st ->
  OutlineCount (aPolygons st) = S (OutlineCount ps).
Proof. exact (outline_count_after_call G aSegList ps aTolerance value st). Qed.

Lemma X4_one_outline_added_witness :
  exists st,
    ConvertOutlineToPolygon still_geometry three_triangles
                            [[mkChain [(1, 1)] true]] 0
    = Returned true st /\
    OutlineCount (aPolygons st) = 2%nat.
Proof.
  eexists. split; [vm_compute; reflexivity|].
  apply (X4_one_outline_added still_geometry three_triangles
           [[mkChain [(1, 1)] true]] 0 true).
  - discriminate.
  - vm_compute. reflexivity.
Defined.

(** ** A lone segment *)

Lemma manhattan_pos (a b : Point) : a <> b -> 0 < manhattan a b.
Proof.
  destruct a as [ax ay], b as [bx by_]. unfold manhattan. simpl. intros Hne.
  destruct (Z.eq_dec ax bx) as [->|Hx]; [|lia].
  destruct (Z.eq_dec ay by_) as [->|Hy]; [contradiction|lia].
Qed.

(** X5: a list of one straight segment with two distinct ends never
    converts.  For every tolerance below [INT_MAX] the outline gets the
    two ends of the segment, [GetEnd] first and [GetStart] next; [GetStart]
    is reported as an unmatched end unless it is within the tolerance of
    [GetEnd]; and in both cases the collision check takes the implicit
    closing edge for the first edge reversed, so the call returns [false]
    with the error location at [GetEnd]. *)
Theorem X5_lone_segment_is_rejected (G : GEOMETRY) (graphic : DRAWSEGMENT)
    (aTolerance : Z) :
  GetShape graphic = S_SEGMENT ->
  GetStart graphic <> GetEnd graphic ->
  manhattan (GetEnd graphic) (GetStart graphic) <= INT_MAX ->
  aTolerance < INT_MAX ->
  ConvertOutlineToPolygon G [graphic] [] aTolerance
  = Returned false
      (mkState [[mkChain [GetEnd graphic; GetStart graphic] true]] []
               (if close_enough (GetEnd graphic) (GetStart graphic) aTolerance
                then [] else [UnableToFindEdge (GetStart graphic)])
               (Some (GetEnd graphic))
               (close_enough (GetEnd graphic) (GetStart graphic) aTolerance)
               1 0).
Proof.
  intros Hshape Hends Hrange Hlim.
  assert (Hx : (find_xmin G [graphic] aTolerance).2 = O).
  { pose proof (find_xmin_in_range G [graphic] aTolerance ltac:(discriminate))
      as H.
    simpl in H. lia. }
  assert (Hcs : close_st (GetEnd graphic) (GetStart graphic) (GetEnd graphic)
                = false).
  { unfold close_st. rewrite (close_ness_manhattan _ _ Hrange).
    rewrite close_ness_manhattan.
    - apply Z.leb_gt.
      pose proof (manhattan_pos (GetEnd graphic) (GetStart graphic)
                    ltac:(congruence)) as Hpos.
      unfold manhattan in *. lia.
    - unfold manhattan, INT_MAX. lia. }
  unfold ConvertOutlineToPolygon. rewrite Hx.
  cbn [segList initial_state lookup list_lookup delete list_delete set_segList].
  unfold build_outline. rewrite Hshape.
  cbn [segList set_polygons aPolygons length chain_walk].
  unfold consume. rewrite Hshape, Hcs.
  change (segList (set_segList [] (initial_state [graphic] [])))
    with (@nil DRAWSEGMENT).
  change (aPolygons (set_segList [] (initial_state [graphic] [])))
    with (@nil POLYGON).
  assert (Hf : findPoint (GetStart graphic) [] aTolerance = NotFound).
  { unfold findPoint. simpl. destruct (Z.leb_spec INT_MAX aTolerance); [lia|].
    reflexivity. }
  match goal with
  | |- context [findPoint (GetStart graphic) ?l aTolerance] =>
      change l with (@nil DRAWSEGMENT)
  end.
  rewrite Hf.
  assert (Hcheck : check_segments
            (IterateSegmentsWithHoles
               (Append (GetStart graphic) (-1)
                       (Append (GetEnd graphic) (-1) (NewOutline []))))
            = Some (GetEnd graphic)).
  { change (IterateSegmentsWithHoles
              (Append (GetStart graphic) (-1)
                      (Append (GetEnd graphic) (-1) (NewOutline []))))
      with [(GetEnd graphic, GetStart graphic);
            (GetStart graphic, GetEnd graphic)].
    cbn [check_segments check_against]. unfold SEG_eqb. cbn [fst snd].
    rewrite !Point_eqb_refl, orb_true_r. reflexivity. }
  assert (Hrun : forall A : state,
            segList A = [] ->
            aPolygons A
            = Append (GetStart graphic) (-1)
                     (Append (GetEnd graphic) (-1) (NewOutline [])) ->
            match hole_loop G (length (segList A)) aTolerance (-1) A with
            | Normal st1 => post_validation st1
            | ReturnFalse st1 => Returned false st1
            | OutOfRange => Undefined
            | OutOfFuel => Diverged
            end = Returned false (set_location (GetEnd graphic) A)).
  { intros A HA HpA. rewrite HA. cbn [length hole_loop]. rewrite HA.
    unfold post_validation. rewrite HpA, Hcheck. reflexivity. }
  destruct (close_enough (GetEnd graphic) (GetStart graphic) aTolerance);
    (etrans; [apply Hrun; reflexivity|reflexivity]).
Qed.

Lemma X5_lone_segment_is_rejected_witness :
  ConvertOutlineToPolygon still_geometry [segment (0, 0) (10, 0)] [] 20
  = Returned false
      (mkState [[mkChain [(10, 0); (0, 0)] true]] [] [] (Some (10, 0))
               true 1 0).
Proof.
  apply (X5_lone_segment_is_rejected still_geometry (segment (0, 0) (10, 0)) 20).
  - reflexivity.
  - discriminate.
  - vm_compute. discriminate.
  - reflexivity.
Defined.

(** ** More on findPoint *)

Lemma take_at_Found (aList aList' : list DRAWSEGMENT) (i : nat)
    (graphic : DRAWSEGMENT) :
  take_at aList i = Found graphic aList' ->
  exists pre post, aList = pre ++ graphic :: post /\ aList' = pre ++ post.
Proof.
  unfold take_at. destruct (aList !! i) as [g|] eqn:Hg; [|discriminate].
  intros [= <- <-]. exists (take i aList), (drop (S i) aList). split.
  - symmetry. apply take_drop_middle. exact Hg.
  - apply delete_take_drop.
Qed.

Lemma take_at_BadIndex_0 (aList : list DRAWSEGMENT) :
  take_at aList 0 = BadIndex -> aList = [].
Proof.
  unfold take_at. destruct aList; [reflexivity|discriminate].
Qed.

(** What [findPoint] does for every limit. *)
Lemma findPoint_any_limit (aPoint : Point) (aList : list DRAWSEGMENT)
    (aLimit : Z) :
  match findPoint aPoint aList aLimit with
  | Found graphic aList' =>
      exists pre post, aList = pre ++ graphic :: post /\ aList' = pre ++ post
  | NotFound =>
      Forall (fun h => exact_match aPoint h = false) aList /\
      Forall (fun h => aLimit < endpoint_distance aPoint h) aList
  | BadIndex => aList = [] /\ INT_MAX <= aLimit
  end.
Proof.
  unfold findPoint.
  destruct (findPoint_loop aPoint aList 0 INT_MAX 0) as [k|[m n]] eqn:Hloop.
  - apply findPoint_loop_inl in Hloop
      as (pre & graphic & post & -> & -> & _ & _).
    simpl. rewrite take_at_middle. eauto.
  - apply findPoint_loop_inr in Hloop as (Hex & Hle & Hcase).
    destruct (Z.leb_spec m aLimit) as [Hc|Hc].
    + destruct (take_at aList n) as [g l'| |] eqn:Ht.
      * eapply take_at_Found. exact Ht.
      * unfold take_at in Ht. destruct (aList !! n); discriminate.
      * destruct Hcase as [[-> ->]|[_ (pre & g & post & -> & -> & _)]].
        -- split; [apply take_at_BadIndex_0; exact Ht|exact Hc].
        -- simpl in Ht. rewrite take_at_middle in Ht. discriminate.
    + split; [exact Hex|].
      revert Hle. apply List.Forall_impl. intros h Hh. lia.
Qed.

(** X6: for every limit, [findPoint] takes at most the primitive it
    returns out of the pool and leaves the others in their order; when it
    returns NULL no primitive has an end at [aPoint] and every primitive
    is farther from it than [aLimit]; and it reads the pool past its end
    only for an empty pool and a limit of [INT_MAX] or more. *)
Theorem X6_findPoint_any_limit (aPoint : Point) (aList : list DRAWSEGMENT)
    (aLimit : Z) :
  match findPoint aPoint aList aLimit with
  | Found graphic aList' =>
      exists pre post, aList = pre ++ graphic :: post /\ aList' = pre ++ post
  | NotFound =>
      Forall (fun h => exact_match aPoint h = false) aList /\
      Forall (fun h => aLimit < endpoint_distance aPoint h) aList
  | BadIndex => aList = [] /\ INT_MAX <= aLimit
  end.
Proof. exact (findPoint_any_limit aPoint aList aLimit). Qed.

(** X7: for a limit below [INT_MAX], [findPoint] returns the first
    primitive of the pool with an end at [aPoint] if there is one;
    otherwise the first primitive at the least distance from [aPoint],
    provided that distance is within the limit; otherwise NULL.  It never
    reads the pool past its end. *)
Theorem X7_findPoint_below_sentinel (aPoint : Point)
    (aList : list DRAWSEGMENT) (aLimit : Z) :
  aLimit < INT_MAX ->
  match findPoint aPoint aList aLimit with
  | Found graphic aList' =>
      exists pre post,
        aList = pre ++ graphic :: post /\ aList' = pre ++ post /\
        Forall (fun h => exact_match aPoint h = false) pre /\
        (exact_match aPoint graphic = true \/
         (Forall (fun h => exact_match aPoint h = false) aList /\
          endpoint_distance aPoint graphic <= aLimit /\
          Forall (fun h => endpoint_distance aPoint graphic
                           < endpoint_distance aPoint h) pre /\
          Forall (fun h => endpoint_distance aPoint graphic
                           <= endpoint_distance aPoint h) aList))
  | NotFound =>
      Forall (fun h => exact_match aPoint h = false) aList /\
      Forall (fun h => aLimit < endpoint_distance aPoint h) aList
  | BadIndex => False
  end.
Proof. exact (findPoint_below_sentinel aPoint aList aLimit). Qed.

Lemma X7_findPoint_below_sentinel_witness :
  match findPoint (0, 1) square 5 with
  | Found _ _ | NotFound => True
  | BadIndex => False
  end.
Proof.
  pose proof (X7_findPoint_below_sentinel (0, 1) square 5 eq_refl) as H.
  destruct (findPoint (0, 1) square 5); [exact I|exact I|exact H].
Defined.

(** ** Distances *)

(** X8: where [|dx| + |dy|] does not exceed [INT_MAX], [close_ness] is
    the Manhattan distance of the two points, and the same in both
    directions. *)
Theorem X8_close_ness_is_manhattan (a b : Point) :
  manhattan a b <= INT_MAX ->
  close_ness a b = manhattan a b /\ close_ness b a = close_ness a b.
Proof.
  intros H.
  assert (Hs : manhattan b a = manhattan a b) by (unfold manhattan; lia).
  rewrite (close_ness_manhattan a b H).
  rewrite (close_ness_manhattan b a) by lia.
  auto.
Qed.

Lemma X8_close_ness_is_manhattan_witness :
  close_ness (0, 0) (3, -4) = manhattan (0, 0) (3, -4) /\
  close_ness (3, -4) (0, 0) = close_ness (0, 0) (3, -4).
Proof.
  apply (X8_close_ness_is_manhattan (0, 0) (3, -4)). vm_compute. discriminate.
Defined.

(** X9: within that range, two points are close enough at tolerance 0
    exactly when they are the same point. *)
Theorem X9_close_enough_zero_is_equality (a b : Point) :
  manhattan a b <= INT_MAX ->
  (close_enough a b 0 = true <-> a = b).
Proof.
  intros H. unfold close_enough. rewrite (close_ness_manhattan a b H).
  rewrite Z.leb_le. unfold manhattan.
  destruct a as [ax ay], b as [bx by_]. simpl. split.
  - intros Hle. f_equal; lia.
  - intros [= -> ->]. lia.
Qed.

Lemma X9_close_enough_zero_is_equality_witness :
  close_enough (10, 0) (10, 0) 0 = true <-> (10, 0) = (10, 0).
Proof.
  apply (X9_close_enough_zero_is_equality (10, 0) (10, 0)).
  vm_compute. discriminate.
Defined.

(** ** The far end of a segment *)

(** X10: when a chain walk consumes a straight segment, it emits one
    point, the end of the segment that is not nearer to the current
    point, [GetEnd] when both ends are as near; that point becomes the
    current point. *)
Theorem X10_segment_far_end (G : GEOMETRY) (aTolerance aHole : Z)
    (graphic : DRAWSEGMENT) (prevPt : Point) (ps : SHAPE_POLY_SET) :
  GetShape graphic = S_SEGMENT ->
  exists nextPt,
    consume G aTolerance aHole graphic prevPt ps
    = Some (nextPt, Append nextPt aHole ps) /\
    ((nextPt = GetEnd graphic /\
      close_ness prevPt (GetStart graphic) <= close_ness prevPt (GetEnd graphic))
     \/
     (nextPt = GetStart graphic /\
      close_ness prevPt (GetEnd graphic) < close_ness prevPt (GetStart graphic))).
Proof.
  intros Hshape. unfold consume, close_st. rewrite Hshape.
  destruct (Z.leb_spec (close_ness prevPt (GetStart graphic))
                       (close_ness prevPt (GetEnd graphic))) as [H|H].
  - exists (GetEnd graphic). split; [reflexivity|]. left. split; [reflexivity|lia].
  - exists (GetStart graphic). split; [reflexivity|]. right. split; [reflexivity|lia].
Qed.

Lemma X10_segment_far_end_witness :
  exists nextPt,
    consume still_geometry 0 (-1) (segment (0, 0) (10, 0)) (10, 0) [[empty_chain]]
    = Some (nextPt, Append nextPt (-1) [[empty_chain]]) /\
    ((nextPt = GetEnd (segment (0, 0) (10, 0)) /\
      close_ness (10, 0) (GetStart (segment (0, 0) (10, 0)))
      <= close_ness (10, 0) (GetEnd (segment (0, 0) (10, 0))))
     \/
     (nextPt = GetStart (segment (0, 0) (10, 0)) /\
      close_ness (10, 0) (GetEnd (segment (0, 0) (10, 0)))
      < close_ness (10, 0) (GetStart (segment (0, 0) (10, 0))))).
Proof.
  apply (X10_segment_far_end still_geometry 0 (-1) (segment (0, 0) (10, 0))
           (10, 0) [[empty_chain]]).
  reflexivity.
Defined.

(** ** The leftmost point *)

Lemma scan_graphic_fold (G : GEOMETRY) (aSegList : list DRAWSEGMENT)
    (aTolerance : Z) (i : nat) (graphic : DRAWSEGMENT) (acc : Point * nat) :
  scan_graphic G aSegList aTolerance i graphic acc =
  foldl (xmin_update i) acc (scan_points G aSegList aTolerance graphic).
Proof.
  unfold scan_graphic, scan_points.
  destruct (GetShape graphic); try reflexivity.
  destruct (0 <? GetRadius graphic); simpl; reflexivity.
Qed.

Lemma foldl_xmin_update_spec (i : nat) (pts : list Point) :
  forall acc : Point * nat,
  let r := foldl (xmin_update i) acc pts in
  r.1.1 <= acc.1.1 /\
  (forall pt, pt ∈ pts -> r.1.1 <= pt.1) /\
  (r = acc \/ (r.2 = i /\ r.1 ∈ pts /\ r.1.1 < acc.1.1)).
Proof.
  induction pts as [|pt pts IH]; intros acc; simpl.
  - split; [lia|]. split; [|auto].
    intros q Hq. apply elem_of_nil in Hq. contradiction.
  - specialize (IH (xmin_update i acc pt)). simpl in IH.
    destruct IH as (Hle & Hall & Hcase).
    unfold xmin_update in *.
    destruct (Z.ltb_spec pt.1 acc.1.1) as [Hlt|Hge]; simpl in *.
    + split; [lia|]. split.
      * intros q Hq. apply elem_of_cons in Hq as [->|Hq]; [lia|auto].
      * right. destruct Hcase as [->|(H2 & Hin & Hx)]; simpl.
        -- split; [reflexivity|]. split; [left|lia].
        -- split; [exact H2|]. split; [right; exact Hin|lia].
    + split; [lia|]. split.
      * intros q Hq. apply elem_of_cons in Hq as [->|Hq]; [lia|auto].
      * destruct Hcase as [->|(H2 & Hin & Hx)]; [left; reflexivity|].
        right. split; [exact H2|]. split; [right; exact Hin|lia].
Qed.

Lemma scan_from_spec (G : GEOMETRY) (aSegList : list DRAWSEGMENT)
    (aTolerance : Z) (rest : list DRAWSEGMENT) :
  forall (i : nat) (acc : Point * nat),
  let r := scan_from G aSegList aTolerance rest i acc in
  r.1.1 <= acc.1.1 /\
  (forall k g pt,
     rest !! k = Some g -> pt ∈ scan_points G aSegList aTolerance g ->
     r.1.1 <= pt.1) /\
  (r = acc \/
   exists k g,
     rest !! k = Some g /\ r.2 = (i + k)%nat /\
     r.1 ∈ scan_points G aSegList aTolerance g /\ r.1.1 < acc.1.1 /\
     forall j g' pt,
       (j < k)%nat -> rest !! j = Some g' ->
       pt ∈ scan_points G aSegList aTolerance g' -> r.1.1 < pt.1).
Proof.
  induction rest as [|g rest IH]; intros i acc; simpl.
  - split; [lia|]. split; [|auto]. intros k g pt Hk. discriminate.
  - rewrite scan_graphic_fold.
    pose proof (foldl_xmin_update_spec i
                  (scan_points G aSegList aTolerance g) acc) as Hg.
    simpl in Hg. destruct Hg as (Hle1 & Hall1 & Hcase1).
    set (acc1 := foldl (xmin_update i) acc (scan_points G aSegList aTolerance g))
      in *.
    specialize (IH (S i) acc1). simpl in IH.
    destruct IH as (Hle & Hall & Hcase).
    set (r := scan_from G aSegList aTolerance rest (S i) acc1) in *.
    split; [lia|]. split.
    + intros [|k] g' pt Hk Hpt.
      * injection Hk as <-. specialize (Hall1 pt Hpt). lia.
      * simpl in Hk. eauto.
    + destruct Hcase as [Hr|(k & g' & Hk & H2 & Hin & Hx & Hbefore)].
      * destruct Hcase1 as [Ha|(H2 & Hin & Hx)].
        -- left. congruence.
        -- right. exists O, g. rewrite Hr.
           split; [reflexivity|]. split; [rewrite H2; lia|].
           split; [exact Hin|]. split; [exact Hx|].
           intros j g' pt Hj. lia.
      * right. exists (S k), g'.
        split; [exact Hk|]. split; [lia|]. split; [exact Hin|].
        split; [lia|].
        intros [|j] g'' pt Hj Hlook Hpt.
        -- injection Hlook as <-. specialize (Hall1 pt Hpt). lia.
        -- simpl in Hlook. apply (Hbefore j g'' pt); [lia|exact Hlook|exact Hpt].
Qed.

(** X11: the start-point scan finds the leftmost of the points it
    compares: no point of any primitive has a smaller x than [xmin], and
    unless no point has an x below [INT_MAX], [xmin] is a point of the
    primitive at [xmini], and every point of every primitive before [xmini]
    lies strictly to the right of it.  A circle contributes its leftmost
    point only when its radius is positive. *)
Theorem X11_scan_finds_leftmost (G : GEOMETRY) (aSegList : list DRAWSEGMENT)
    (aTolerance : Z) :
  let r := find_xmin G aSegList aTolerance in
  r.1.1 <= INT_MAX /\
  (forall k g pt,
     aSegList !! k = Some g -> pt ∈ scan_points G aSegList aTolerance g ->
     r.1.1 <= pt.1) /\
  (r = ((INT_MAX, 0), O) \/
   exists g,
     aSegList !! r.2 = Some g /\
     r.1 ∈ scan_points G aSegList aTolerance g /\
     forall j g' pt,
       (j < r.2)%nat -> aSegList !! j = Some g' ->
       pt ∈ scan_points G aSegList aTolerance g' -> r.1.1 < pt.1).
Proof.
  pose proof (scan_from_spec G aSegList aTolerance aSegList 0 ((INT_MAX, 0), O))
    as H.
  simpl in H. unfold find_xmin. simpl.
  destruct H as (Hle & Hall & Hcase).
  split; [exact Hle|]. split; [exact Hall|].
  destruct Hcase as [Hr|(k & g & Hk & H2 & Hin & _ & Hbefore)]; [left; exact Hr|].
  right. exists g. simpl in H2. rewrite H2.
  split; [exact Hk|]. split; [exact Hin|exact Hbefore].
Qed.

(** ** The first rejected pair *)

Lemma check_against_spec (seg1 : SEG) (rest : list SEG) :
  match check_against seg1 rest with
  | None => forall j b, rest !! j = Some b -> rejected seg1 b = None
  | Some pt =>
      exists j b,
        rest !! j = Some b /\ rejected seg1 b = Some pt /\
        forall j' b', (j' < j)%nat -> rest !! j' = Some b' ->
                      rejected seg1 b' = None
  end.
Proof.
  induction rest as [|s rest IH].
  - simpl. intros j b Hj. discriminate.
  - rewrite check_against_cons. destruct (rejected seg1 s) as [q|] eqn:Hs.
    + exists O, s. split; [reflexivity|]. split; [exact Hs|]. intros j' b' Hj. lia.
    + destruct (check_against seg1 rest) as [pt|].
      * destruct IH as (j & b & Hj & Hr & Hbefore).
        exists (S j), b. split; [exact Hj|]. split; [exact Hr|].
        intros [|j'] b' Hlt Hl.
        -- injection Hl as <-. exact Hs.
        -- apply (Hbefore j' b'); [lia|exact Hl].
      * intros [|j] b Hl.
        -- injection Hl as <-. exact Hs.
        -- eapply IH. exact Hl.
Qed.

Lemma check_segments_spec (segs : list SEG) :
  match check_segments segs with
  | None =>
      forall i j a b,
        (i < j)%nat -> segs !! i = Some a -> segs !! j = Some b ->
        rejected a b = None
  | Some pt =>
      exists i j a b,
        (i < j)%nat /\ segs !! i = Some a /\ segs !! j = Some b /\
        rejected a b = Some pt /\
        forall i' j' a' b',
          (i' < j')%nat -> (i' < i \/ (i' = i /\ j' < j))%nat ->
          segs !! i' = Some a' -> segs !! j' = Some b' ->
          rejected a' b' = None
  end.
Proof.
  induction segs as [|s rest IH]; simpl.
  - intros i j a b _ Hi. discriminate.
  - pose proof (check_against_spec s rest) as Hs.
    destruct (check_against s rest) as [pt|].
    + destruct Hs as (j & b & Hj & Hr & Hbefore).
      exists O, (S j), s, b.
      split; [lia|]. split; [reflexivity|]. split; [exact Hj|].
      split; [exact Hr|].
      intros i' j' a' b' Hlt [Hi|[-> Hj']] Ha Hb; [lia|].
      injection Ha as <-. destruct j' as [|j']; [lia|].
      apply (Hbefore j' b'); [lia|exact Hb].
    + destruct (check_segments rest) as [pt|].
      * destruct IH as (i & j & a & b & Hlt & Ha & Hb & Hr & Hbefore).
        exists (S i), (S j), a, b.
        split; [lia|]. split; [exact Ha|]. split; [exact Hb|].
        split; [exact Hr|].
        intros [|i'] j' a' b' Hlt' Hord Ha' Hb'.
        -- injection Ha' as <-. destruct j' as [|j']; [lia|].
           eapply Hs. exact Hb'.
        -- destruct j' as [|j']; [lia|].
           apply (Hbefore i' j' a' b'); [lia|lia|exact Ha'|exact Hb'].
      * intros [|i] j a b Hlt Ha Hb.
        -- injection Ha as <-. destruct j as [|j]; [lia|].
           eapply Hs. exact Hb.
        -- destruct j as [|j]; [lia|].
           apply (IH i j a b); [lia|exact Ha|exact Hb].
Qed.

(** X12: the collision check compares each segment with every later
    one, in the order of the segment iterator.  Either no such pair is
    rejected, and it returns the return value in waiting and changes
    nothing; or it returns [false] with the location of the first rejected
    pair in that order: the first point of its first segment for the same
    edge twice, else the crossing point. *)
Theorem X12_first_rejected_pair (st : state) :
  let segs := IterateSegmentsWithHoles (aPolygons st) in
  ((forall i j a b,
      (i < j)%nat -> segs !! i = Some a -> segs !! j = Some b ->
      rejected a b = None) /\
   post_validation st = Returned (polygonComplete st) st)
  \/
  (exists i j a b pt,
     (i < j)%nat /\ segs !! i = Some a /\ segs !! j = Some b /\
     rejected a b = Some pt /\
     (forall i' j' a' b',
        (i' < j')%nat -> (i' < i \/ (i' = i /\ j' < j))%nat ->
        segs !! i' = Some a' -> segs !! j' = Some b' ->
        rejected a' b' = None) /\
     post_validation st
     = Returned false
         (mkState (aPolygons st) (segList st) (aErrorText st) (Some pt)
                  (polygonComplete st) (walk_iterations st)
                  (hole_iterations st))).
Proof.
  intros segs. unfold post_validation. fold segs.
  pose proof (check_segments_spec segs) as H.
  destruct (check_segments segs) as [pt|].
  - right. destruct H as (i & j & a & b & Hlt & Ha & Hb & Hr & Hbefore).
    exists i, j, a, b, pt. auto 10.
  - left. auto.
Qed.

(** ** A board without edges *)

Lemma edge_segments_none (aBoard : BOARD) :
  Forall (fun it : PCB_LAYER_ID * DRAWSEGMENT => it.1 <> Edge_Cuts) (items aBoard) ->
  edge_segments aBoard = [].
Proof.
  unfold edge_segments. induction (items aBoard) as [|it l IH]; intros H.
  - reflexivity.
  - inversion H as [|it' l' Hit Hl]; subst.
    rewrite filter_cons. destruct (decide (is_Edge_Cuts it.1 = true)) as [He|He].
    + destruct it as [[|id] g]; simpl in *; [contradiction|discriminate].
    + apply IH. exact Hl.
Qed.

(** X13: for a board with no item on Edge_Cuts, whatever lies on the
    other layers and whatever the tolerance, [BuildBoardPolygonOutlines]
    runs no conversion, returns [false] and leaves the rectangle of the
    fallback box as the only outline. *)
Theorem X13_board_without_edges (G : GEOMETRY) (aBoard : BOARD)
    (aOutlines : SHAPE_POLY_SET) (aTolerance : Z) :
  Forall (fun it : PCB_LAYER_ID * DRAWSEGMENT => it.1 <> Edge_Cuts) (items aBoard) ->
  BuildBoardPolygonOutlines G aBoard aOutlines aTolerance
  = BoardReturned false [[mkChain (box_corners (fallback_box G aBoard)) true]].
Proof.
  intros H. unfold BuildBoardPolygonOutlines.
  rewrite (edge_segments_none aBoard H). reflexivity.
Qed.

Lemma X13_board_without_edges_witness :
  BuildBoardPolygonOutlines still_geometry board_without_edges [] INT_MAX
  = BoardReturned false
      [[mkChain (box_corners (fallback_box still_geometry board_without_edges))
                true]].
Proof.
  apply (X13_board_without_edges still_geometry board_without_edges [] INT_MAX).
  repeat constructor. simpl. discriminate.
Defined.

(** ** A board below the sentinel *)

Lemma fallback_box_unfold (G : GEOMETRY) (aBoard : BOARD) :
  fallback_box G aBoard =
  if is_null_area (GetBoardEdgesBoundingBox aBoard)
  then (if is_null_area (ComputeBoundingBox aBoard)
        then Inflate (Millimeter2iu_1 G) (ComputeBoundingBox aBoard)
        else ComputeBoundingBox aBoard)
  else GetBoardEdgesBoundingBox aBoard.
Proof.
  unfold fallback_box.
  destruct (is_null_area (GetBoardEdgesBoundingBox aBoard)) eqn:He;
    [reflexivity|].
  rewrite He. reflexivity.
Qed.

Lemma is_null_area_true (r : EDA_RECT) :
  (GetSize r).1 = 0 \/ (GetSize r).2 = 0 -> is_null_area r = true.
Proof.
  unfold is_null_area, GetWidth_rect, GetHeight_rect. intros [H|H]; rewrite H.
  - reflexivity.
  - apply orb_true_r.
Qed.

Lemma is_null_area_false (r : EDA_RECT) :
  (GetSize r).1 <> 0 -> (GetSize r).2 <> 0 -> is_null_area r = false.
Proof.
  unfold is_null_area, GetWidth_rect, GetHeight_rect. intros Hw Hh.
  apply orb_false_iff. split; apply Z.eqb_neq; assumption.
Qed.

(** X23: with a tolerance below [INT_MAX] and an empty [aOutlines],
    [BuildBoardPolygonOutlines] returns for every board and never leaves
    an empty set.  With [true] the set is the one the conversion of the
    Edge_Cuts primitives made, of one polygon.  With [false] it is one
    closed outline of four points and no hole: the corners of the box of
    the board edges; or of the box of all items, if the first has a side
    of length 0; with every side moved out by [Millimeter2iu( 1.0 )], if
    that one has such a side too. *)
Theorem X23_board_outline_below_sentinel (G : GEOMETRY) (aBoard : BOARD)
    (aTolerance : Z) (bbbox : EDA_RECT) :
  aTolerance < INT_MAX ->
  ((GetSize (GetBoardEdgesBoundingBox aBoard)).1 <> 0 /\
   (GetSize (GetBoardEdgesBoundingBox aBoard)).2 <> 0 /\
   bbbox = GetBoardEdgesBoundingBox aBoard) \/
  (((GetSize (GetBoardEdgesBoundingBox aBoard)).1 = 0 \/
    (GetSize (GetBoardEdgesBoundingBox aBoard)).2 = 0) /\
   (GetSize (ComputeBoundingBox aBoard)).1 <> 0 /\
   (GetSize (ComputeBoundingBox aBoard)).2 <> 0 /\
   bbbox = ComputeBoundingBox aBoard) \/
  (((GetSize (GetBoardEdgesBoundingBox aBoard)).1 = 0 \/
    (GetSize (GetBoardEdgesBoundingBox aBoard)).2 = 0) /\
   ((GetSize (ComputeBoundingBox aBoard)).1 = 0 \/
    (GetSize (ComputeBoundingBox aBoard)).2 = 0) /\
   bbbox =
     mkRect (int_sub (GetOrigin (ComputeBoundingBox aBoard)).1
                     (Millimeter2iu_1 G),
             int_sub (GetOrigin (ComputeBoundingBox aBoard)).2
                     (Millimeter2iu_1 G))
            (int_add (GetSize (ComputeBoundingBox aBoard)).1
                     (2 * Millimeter2iu_1 G),
             int_add (GetSize (ComputeBoundingBox aBoard)).2
                     (2 * Millimeter2iu_1 G))) ->
  exists success out,
    BuildBoardPolygonOutlines G aBoard [] aTolerance
    = BoardReturned success out /\
    (0 < OutlineCount out)%nat /\
    (success = true ->
     OutlineCount out = 1%nat /\
     exists st,
       ConvertOutlineToPolygon G (edge_segments aBoard) [] aTolerance
       = Returned true st /\
       aPolygons st = out) /\
    (success = false ->
     out =
       [[mkChain
           [ GetOrigin bbbox;
             ((GetOrigin bbbox).1,
              int_add (GetOrigin bbbox).2 (GetSize bbbox).2);
             (int_add (GetOrigin bbbox).1 (GetSize bbbox).1,
              int_add (GetOrigin bbbox).2 (GetSize bbbox).2);
             (int_add (GetOrigin bbbox).1 (GetSize bbbox).1,
              (GetOrigin bbbox).2) ] true]]).
Proof.
  intros Hlim Hbox.
  assert (Hfb : fallback_box G aBoard = bbbox).
  { rewrite fallback_box_unfold.
    destruct Hbox as [(Hw & Hh & ->)|[(He & Hw & Hh & ->)|(He & Hv & ->)]].
    - rewrite (is_null_area_false _ Hw Hh). reflexivity.
    - rewrite (is_null_area_true _ He), (is_null_area_false _ Hw Hh).
      reflexivity.
    - rewrite (is_null_area_true _ He), (is_null_area_true _ Hv).
      reflexivity. }
  assert (Hfail : forall ps,
            fallback_outline G aBoard ps =
            [[mkChain
                [ GetOrigin bbbox;
                  ((GetOrigin bbbox).1,
                   int_add (GetOrigin bbbox).2 (GetSize bbbox).2);
                  (int_add (GetOrigin bbbox).1 (GetSize bbbox).1,
                   int_add (GetOrigin bbbox).2 (GetSize bbbox).2);
                  (int_add (GetOrigin bbbox).1 (GetSize bbbox).1,
                   (GetOrigin bbbox).2) ] true]]).
  { intros ps. rewrite fallback_outline_rectangle, Hfb. reflexivity. }
  unfold BuildBoardPolygonOutlines.
  destruct (edge_segments aBoard) as [|g rest] eqn:Hs.
  - cbn [negb orb]. exists false, (fallback_outline G aBoard []).
    split; [reflexivity|]. rewrite Hfail.
    split; [simpl; lia|]. split; [discriminate|reflexivity].
  - pose proof (ConvertOutlineToPolygon_defined G (g :: rest) aTolerance) as Hd.
    destruct (ConvertOutlineToPolygon G (g :: rest) [] aTolerance)
      as [value st| |] eqn:Hconv; [|lia|contradiction].
    pose proof (outline_count_after_call G (g :: rest) [] aTolerance value st
                  ltac:(discriminate) Hconv) as Hcount.
    change (OutlineCount []) with O in Hcount.
    destruct value; cbn [negb orb].
    + rewrite Hcount. cbn [Nat.eqb].
      exists true, (aPolygons st). split; [reflexivity|].
      split; [lia|]. split; [|discriminate].
      intros _. split; [exact Hcount|]. exists st. split; reflexivity.
    + exists false, (fallback_outline G aBoard (aPolygons st)).
      split; [reflexivity|]. rewrite Hfail.
      split; [simpl; lia|]. split; [discriminate|reflexivity].
Qed.

Lemma X23_board_outline_below_sentinel_witness :
  BuildBoardPolygonOutlines still_geometry one_segment_board [] 0
  = BoardReturned false
      [[mkChain [ (-1000000, -1000000); (-1000000, 1000000);
                  (1000010, 1000000); (1000010, -1000000) ] true]] /\
  exists success out,
    BuildBoardPolygonOutlines still_geometry one_segment_board [] 0
    = BoardReturned success out /\
    (0 < OutlineCount out)%nat /\
    (success = true ->
     OutlineCount out = 1%nat /\
     exists st,
       ConvertOutlineToPolygon still_geometry (edge_segments one_segment_board)
                               [] 0
       = Returned true st /\
       aPolygons st = out) /\
    (success = false ->
     out =
       [[mkChain [ (-1000000, -1000000); (-1000000, 1000000);
                   (1000010, 1000000); (1000010, -1000000) ] true]]).
Proof.
  split; [vm_compute; reflexivity|].
  apply (X23_board_outline_below_sentinel still_geometry one_segment_board 0
           (mkRect (-1000000, -1000000) (2000010, 2000000))).
  - reflexivity.
  - right. right. split; [right; reflexivity|].
    split; [right; reflexivity|]. reflexivity.
Defined.

(** ** The footprint outline *)

Lemma foldl_orb (A : Type) (f : A -> bool) (l : list A) :
  forall b, foldl (fun acc x => acc || f x) b l = b || existsb f l.
Proof.
  induction l as [|x l IH]; intros b; simpl.
  - rewrite orb_false_r. reflexivity.
  - rewrite IH, orb_assoc. reflexivity.
Qed.

(** X14: [isCopperOutside] answers [true] exactly when some segment of
    the outline of some pad does not collide with the shape; with no pad
    it answers [false]. *)
Theorem X14_isCopperOutside_exists (Collide : SHAPE_POLY_SET -> SEG -> bool)
    (pads : list SHAPE_POLY_SET) (aShape : SHAPE_POLY_SET) :
  isCopperOutside Collide pads aShape = true <->
  exists padPoly seg,
    padPoly ∈ pads /\ seg ∈ CIterateSegments 0 padPoly /\
    Collide aShape seg = false.
Proof.
  unfold isCopperOutside. rewrite foldl_orb. simpl.
  rewrite existsb_exists. split.
  - intros (padPoly & Hin & Hout). unfold pad_outside in Hout.
    rewrite foldl_orb in Hout. simpl in Hout.
    apply existsb_exists in Hout as (seg & Hseg & Hc).
    exists padPoly, seg. rewrite !list_elem_of_In.
    split; [exact Hin|]. split; [exact Hseg|].
    apply negb_true_iff. exact Hc.
  - intros (padPoly & seg & Hin & Hseg & Hc).
    exists padPoly. rewrite list_elem_of_In in Hin. split; [exact Hin|].
    unfold pad_outside. rewrite foldl_orb. simpl.
    apply existsb_exists. exists seg. rewrite list_elem_of_In in Hseg.
    split; [exact Hseg|]. apply negb_true_iff. exact Hc.
Qed.

Lemma add_as_holes_single (outlines : SHAPE_POLY_SET) :
  forall poly0 : POLYGON,
  add_as_holes outlines [poly0] = [poly0 ++ concat outlines].
Proof.
  assert (Hinner : forall (poly : POLYGON) (poly0 : POLYGON),
            foldl (fun acc c => AddHole c acc) [poly0] poly = [poly0 ++ poly]).
  { induction poly as [|c poly IH]; intros poly0; simpl.
    - rewrite app_nil_r. reflexivity.
    - unfold AddHole at 2. simpl. rewrite IH, <- app_assoc. reflexivity. }
  unfold add_as_holes.
  induction outlines as [|poly outlines IH]; intros poly0; simpl.
  - rewrite app_nil_r. reflexivity.
  - rewrite Hinner, IH, <- app_assoc. reflexivity.
Qed.

(** X15: when the conversion closes and copper lies outside, the result
    of [BuildFootprintPolygonOutlines] is one polygon: the rectangle of the
    bounding box as its outline, and as its holes every contour the
    conversion produced, outlines and holes alike, in their order. *)
Theorem X15_footprint_copper_outside (G : GEOMETRY)
    (Collide : SHAPE_POLY_SET -> SEG -> bool) (aBoard : FOOTPRINT_BOARD)
    (aOutlines : SHAPE_POLY_SET) (aTolerance : Z) (st : state) :
  ConvertOutlineToPolygon G (edge_segments (fp_board aBoard)) [] aTolerance
  = Returned true st ->
  isCopperOutside Collide (Pads aBoard) (aPolygons st) = true ->
  BuildFootprintPolygonOutlines G Collide aBoard aOutlines aTolerance
  = BoardReturned true
      [mkChain (box_corners (bounding_box G aBoard)) true
       :: concat (aPolygons st)].
Proof.
  intros Hr Hc. unfold BuildFootprintPolygonOutlines. rewrite Hr, Hc.
  change (buildBoardBoundingBoxPoly G aBoard aOutlines)
    with [[mkChain (box_corners (bounding_box G aBoard)) true]].
  rewrite add_as_holes_single. reflexivity.
Qed.

Lemma X15_footprint_copper_outside_witness :
  exists st,
    BuildFootprintPolygonOutlines still_geometry (fun _ _ => false)
      footprint_with_square_edge [] 0
    = BoardReturned true
        [mkChain (box_corners (bounding_box still_geometry
                                            footprint_with_square_edge)) true
         :: concat (aPolygons st)].
Proof.
  eexists.
  apply (X15_footprint_copper_outside still_geometry (fun _ _ => false)
           footprint_with_square_edge [] 0).
  - vm_compute. reflexivity.
  - vm_compute. reflexivity.
Defined.

(** X16: for a footprint with no item on Edge_Cuts and no pad,
    [BuildFootprintPolygonOutlines] returns [true] and an empty polygon
    set, whatever [aOutlines] held: the conversion of the empty list
    succeeds with nothing, and that nothing is assigned to [aOutlines]. *)
Theorem X16_empty_footprint_gives_empty_set (G : GEOMETRY)
    (Collide : SHAPE_POLY_SET -> SEG -> bool) (aBoard : FOOTPRINT_BOARD)
    (aOutlines : SHAPE_POLY_SET) (aTolerance : Z) :
  Forall (fun it : PCB_LAYER_ID * DRAWSEGMENT => it.1 <> Edge_Cuts)
         (items (fp_board aBoard)) ->
  Pads aBoard = [] ->
  BuildFootprintPolygonOutlines G Collide aBoard aOutlines aTolerance
  = BoardReturned true [].
Proof.
  intros He Hp. unfold BuildFootprintPolygonOutlines.
  rewrite (edge_segments_none _ He), Hp. reflexivity.
Qed.

Lemma X16_empty_footprint_gives_empty_set_witness :
  BuildFootprintPolygonOutlines still_geometry (fun _ _ => false)
    empty_footprint [[mkChain [(1, 1)] true]] 0
  = BoardReturned true [].
Proof.
  apply (X16_empty_footprint_gives_empty_set still_geometry (fun _ _ => false)
           empty_footprint [[mkChain [(1, 1)] true]] 0).
  - constructor.
  - reflexivity.
Defined.

(** X17: when [TransformCircleToPolygon] never leaves an empty set, a
    [false] from [BuildFootprintPolygonOutlines] comes with [aOutlines]
    exactly as it was passed: a conversion that fails has always started
    an outline, so the bounding box of the branch for no outline at all is
    never used.  The function always returns.  (A conversion that indexes
    the pool past its end has a tolerance of [INT_MAX] or more.) *)
Theorem X17_footprint_failure_leaves_outlines (G : GEOMETRY)
    (Collide : SHAPE_POLY_SET -> SEG -> bool) (aBoard : FOOTPRINT_BOARD)
    (aOutlines : SHAPE_POLY_SET) (aTolerance : Z) :
  (forall c r,
     (0 < OutlineCount (TransformCircleToPolygon G [] c r aTolerance))%nat) ->
  match BuildFootprintPolygonOutlines G Collide aBoard aOutlines aTolerance with
  | BoardReturned false out => out = aOutlines
  | BoardReturned true _ => True
  | BoardUndefined => INT_MAX <= aTolerance
  | BoardDiverged => False
  end.
Proof.
  intros Hcircle. unfold BuildFootprintPolygonOutlines.
  set (l := edge_segments (fp_board aBoard)).
  pose proof (ConvertOutlineToPolygon_defined G l aTolerance) as Hacc.
  destruct (ConvertOutlineToPolygon G l [] aTolerance) as [value st| |] eqn:Hr;
    [|exact Hacc|exact Hacc].
  destruct value.
  - destruct (isCopperOutside _ _ _); exact I.
  - assert (Hne : l <> []).
    { intros Hl. rewrite Hl in Hr. discriminate. }
    rewrite (outline_count_after_call G l [] aTolerance false st Hne Hr).
    reflexivity.
Qed.

Lemma X17_footprint_failure_leaves_outlines_witness :
  match BuildFootprintPolygonOutlines ring_geometry (fun _ _ => true)
          footprint_with_open_edge [[mkChain [(1, 1)] true]] 0 with
  | BoardReturned false out => out = [[mkChain [(1, 1)] true]]
  | BoardReturned true _ => True
  | BoardUndefined => INT_MAX <= 0
  | BoardDiverged => False
  end.
Proof.
  apply (X17_footprint_failure_leaves_outlines ring_geometry (fun _ _ => true)
           footprint_with_open_edge [[mkChain [(1, 1)] true]] 0).
  intros c r. simpl. lia.
Defined.

(** ** Projection on an outline *)

Section Projection.

Context (Distance : SEG -> Point -> Z) (NearestPoint : SEG -> Point -> Point).
Context (aEndPoint : Point).

Lemma project_fold_nonneg (segs : list SEG) :
  (forall j seg', segs !! j = Some seg' -> 0 <= Distance seg' aEndPoint) ->
  forall (m : Z) (q : Point),
  0 <= m ->
  let r := foldl (project_step Distance NearestPoint aEndPoint) (m, q) segs in
  r.1 <= m /\
  (forall j seg', segs !! j = Some seg' -> r.1 <= Distance seg' aEndPoint) /\
  (r = (m, q) \/
   exists k seg,
     segs !! k = Some seg /\
     r = (Distance seg aEndPoint, NearestPoint seg aEndPoint) /\
     r.1 < m /\
     forall j seg', (j < k)%nat -> segs !! j = Some seg' ->
                    r.1 < Distance seg' aEndPoint).
Proof.
  induction segs as [|s segs IH]; intros Hpos m q Hm; simpl.
  - split; [lia|]. split; [|auto]. intros j seg' Hj. discriminate.
  - assert (Hs : 0 <= Distance s aEndPoint) by (apply (Hpos O s); reflexivity).
    assert (Hpos' : forall j seg', segs !! j = Some seg' ->
                                   0 <= Distance seg' aEndPoint).
    { intros j seg' Hj. apply (Hpos (S j) seg'). exact Hj. }
    assert (Hstep : project_step Distance NearestPoint aEndPoint (m, q) s
                    = if Distance s aEndPoint <? m
                      then (Distance s aEndPoint, NearestPoint s aEndPoint)
                      else (m, q)).
    { unfold project_step. simpl.
      destruct (Z.ltb_spec m 0) as [Hneg|_]; [lia|reflexivity]. }
    rewrite Hstep.
    destruct (Z.ltb_spec (Distance s aEndPoint) m) as [Hlt|Hge].
    + specialize (IH Hpos' (Distance s aEndPoint) (NearestPoint s aEndPoint) Hs).
      simpl in IH. destruct IH as (Hle & Hall & Hcase).
      split; [lia|]. split.
      * intros [|j] seg' Hj; [injection Hj as <-; lia|eauto].
      * right. destruct Hcase as [Hr|(k & seg & Hk & Hr & Hx & Hbefore)].
        -- exists O, s. split; [reflexivity|]. split; [exact Hr|].
           rewrite Hr. simpl. split; [lia|]. intros j seg' Hj. lia.
        -- exists (S k), seg. split; [exact Hk|]. split; [exact Hr|].
           split; [lia|].
           intros [|j] seg' Hlt' Hj; [injection Hj as <-; lia|].
           apply (Hbefore j seg'); [lia|exact Hj].
    + specialize (IH Hpos' m q Hm). simpl in IH.
      destruct IH as (Hle & Hall & Hcase).
      split; [lia|]. split.
      * intros [|j] seg' Hj; [injection Hj as <-; lia|eauto].
      * destruct Hcase as [Hr|(k & seg & Hk & Hr & Hx & Hbefore)];
          [left; exact Hr|].
        right. exists (S k), seg. split; [exact Hk|]. split; [exact Hr|].
        split; [lia|].
        intros [|j] seg' Hlt' Hj; [injection Hj as <-; lia|].
        apply (Hbefore j seg'); [lia|exact Hj].
Qed.

(** X18: on an outline with at least one segment, and with distances
    that are not negative, [projectPointOnSegment] returns the nearest
    point of the first segment of the outline that is at the least
    distance from [aEndPoint]. *)
Theorem X18_projection_on_nearest_segment (aOutline : SHAPE_POLY_SET)
    (aOutlineNum : nat) :
  (forall j seg',
     CIterateSegments aOutlineNum aOutline !! j = Some seg' ->
     0 <= Distance seg' aEndPoint) ->
  (0 < length (CIterateSegments aOutlineNum aOutline))%nat ->
  exists k seg,
    CIterateSegments aOutlineNum aOutline !! k = Some seg /\
    projectPointOnSegment Distance NearestPoint aEndPoint aOutline aOutlineNum
    = NearestPoint seg aEndPoint /\
    (forall j seg',
       CIterateSegments aOutlineNum aOutline !! j = Some seg' ->
       Distance seg aEndPoint <= Distance seg' aEndPoint) /\
    (forall j seg',
       (j < k)%nat -> CIterateSegments aOutlineNum aOutline !! j = Some seg' ->
       Distance seg aEndPoint < Distance seg' aEndPoint).
Proof.
  unfold projectPointOnSegment.
  destruct (CIterateSegments aOutlineNum aOutline) as [|s segs];
    intros Hpos Hlen; [simpl in Hlen; lia|].
  assert (Hs : 0 <= Distance s aEndPoint) by (apply (Hpos O s); reflexivity).
  assert (Hpos' : forall j seg', segs !! j = Some seg' ->
                                 0 <= Distance seg' aEndPoint).
  { intros j seg' Hj. apply (Hpos (S j) seg'). exact Hj. }
  simpl.
  change (project_step Distance NearestPoint aEndPoint (-1, (0, 0)) s)
    with (Distance s aEndPoint, NearestPoint s aEndPoint).
  pose proof (project_fold_nonneg segs Hpos' (Distance s aEndPoint)
                (NearestPoint s aEndPoint) Hs) as H.
  simpl in H. destruct H as (Hle & Hall & Hcase).
  destruct Hcase as [Hr|(k & seg & Hk & Hr & Hx & Hbefore)].
  - exists O, s. rewrite Hr in *. simpl in *.
    split; [reflexivity|]. split; [reflexivity|]. split.
    + intros [|j] seg' Hj; [injection Hj as <-; lia|eauto].
    + intros j seg' Hj. lia.
  - exists (S k), seg. rewrite Hr in *. simpl in *.
    split; [exact Hk|]. split; [reflexivity|]. split.
    + intros [|j] seg' Hj; [injection Hj as <-; lia|eauto].
    + intros [|j] seg' Hlt Hj; [injection Hj as <-; lia|].
      apply (Hbefore j seg'); [lia|exact Hj].
Qed.

End Projection.

Lemma X18_projection_on_nearest_segment_witness :
  exists k seg,
    CIterateSegments 0 [[mkChain [(0, 0); (10, 0); (10, 10)] true]] !! k
    = Some seg /\
    projectPointOnSegment first_end_distance first_end (9, 1)
      [[mkChain [(0, 0); (10, 0); (10, 10)] true]] 0
    = first_end seg (9, 1) /\
    (forall j seg',
       CIterateSegments 0 [[mkChain [(0, 0); (10, 0); (10, 10)] true]] !! j
       = Some seg' ->
       first_end_distance seg (9, 1) <= first_end_distance seg' (9, 1)) /\
    (forall j seg',
       (j < k)%nat ->
       CIterateSegments 0 [[mkChain [(0, 0); (10, 0); (10, 10)] true]] !! j
       = Some seg' ->
       first_end_distance seg (9, 1) < first_end_distance seg' (9, 1)).
Proof.
  apply (X18_projection_on_nearest_segment first_end_distance first_end (9, 1)
           [[mkChain [(0, 0); (10, 0); (10, 10)] true]] 0).
  - intros j seg' _. unfold first_end_distance, manhattan. lia.
  - simpl. lia.
Defined.

(** ** What a return value guarantees *)

(** X19: a call that has reported an unclosed contour returns [false],
    whatever happens to the rest of the pool and in the collision check. *)
Theorem X19_unclosed_report_means_false (G : GEOMETRY)
    (aSegList : list DRAWSEGMENT) (ps : SHAPE_POLY_SET) (aTolerance : Z)
    (value : bool) (st : state) (p : Point) :
  ConvertOutlineToPolygon G aSegList ps aTolerance = Returned value st ->
  UnableToFindEdge p ∈ aErrorText st ->
  value = false.
Proof.
  intros Hr Hp.
  pose proof (ConvertOutlineToPolygon_account G aSegList ps aTolerance) as H.
  rewrite Hr in H. destruct H as (_ & _ & H). apply H. exists p. exact Hp.
Qed.

Lemma X19_unclosed_report_means_false_witness :
  exists value st,
    ConvertOutlineToPolygon still_geometry three_triangles [] 2
    = Returned value st /\ value = false.
Proof.
  eexists _, _. split; [vm_compute; reflexivity|].
  eapply (X19_unclosed_report_means_false still_geometry three_triangles [] 2
            _ _ (14, 0)).
  - vm_compute. reflexivity.
  - apply list_elem_of_singleton. reflexivity.
Defined.

(** X20: a call on a list that is not empty returns [true] only with a
    polygon set in which no segment has the end points of a later one, in
    either order, and no two segments cross. *)
Theorem X20_true_return_has_no_collision (G : GEOMETRY)
    (aSegList : list DRAWSEGMENT) (ps : SHAPE_POLY_SET) (aTolerance : Z)
    (st : state) (i j : nat) (a b : SEG) :
  aSegList <> [] ->
  ConvertOutlineToPolygon G aSegList ps aTolerance = Returned true st ->
  (i < j)%nat ->
  IterateSegmentsWithHoles (aPolygons st) !! i = Some a ->
  IterateSegmentsWithHoles (aPolygons st) !! j = Some b ->
  same_edge a b = false /\ SEG_Intersect a b = None.
Proof.
  intros Hne Hr Hlt Ha Hb.
  pose proof (ConvertOutlineToPolygon_validated G aSegList ps aTolerance st Hne Hr)
    as Hnone.
  pose proof (check_segments_spec (IterateSegmentsWithHoles (aPolygons st))) as H.
  rewrite Hnone in H. specialize (H i j a b Hlt Ha Hb).
  unfold rejected in H. destruct (same_edge a b); [discriminate|].
  split; [reflexivity|exact H].
Qed.

Lemma X20_true_return_has_no_collision_witness :
  same_edge ((10, 0), (0, 0)) ((0, 0), (0, 10)) = false /\
  SEG_Intersect ((10, 0), (0, 0)) ((0, 0), (0, 10)) = None.
Proof.
  apply (X20_true_return_has_no_collision still_geometry square [] 0
           (mkState [[mkChain [(10, 0); (0, 0); (0, 10); (10, 10); (10, 0)] true]]
                    [] [] None true 4 0) 0 1).
  - discriminate.
  - vm_compute. reflexivity.
  - lia.
  - reflexivity.
  - reflexivity.
Defined.

(** ** At and above the sentinel *)

Lemma take_at_not_NotFound (aList : list DRAWSEGMENT) (i : nat) :
  take_at aList i <> NotFound.
Proof. unfold take_at. destruct (aList !! i); discriminate. Qed.

(** X21: with a limit of [INT_MAX] or more, [findPoint] never returns
    NULL: on a pool that is not empty it always returns a primitive, and on
    an empty pool it reads past the end. *)
Theorem X21_findPoint_at_sentinel (aPoint : Point) (aList : list DRAWSEGMENT)
    (aLimit : Z) :
  INT_MAX <= aLimit ->
  match findPoint aPoint aList aLimit with
  | Found _ _ => (0 < length aList)%nat
  | NotFound => False
  | BadIndex => aList = []
  end.
Proof.
  intros Hlim.
  pose proof (findPoint_any_limit aPoint aList aLimit) as H6.
  destruct (findPoint aPoint aList aLimit) as [g l'| |] eqn:Hf.
  - destruct H6 as (pre & post & -> & _). rewrite length_app. simpl. lia.
  - unfold findPoint in Hf.
    destruct (findPoint_loop aPoint aList 0 INT_MAX 0) as [k|[m n]] eqn:Hloop.
    + exact (take_at_not_NotFound _ _ Hf).
    + apply findPoint_loop_inr in Hloop as (_ & _ & Hcase).
      assert (Hm : m <= INT_MAX) by (destruct Hcase as [[-> _]|[Hlt _]]; lia).
      destruct (Z.leb_spec m aLimit) as [_|Hgt]; [|lia].
      exact (take_at_not_NotFound _ _ Hf).
  - apply H6.
Qed.

Lemma X21_findPoint_at_sentinel_witness :
  match findPoint (50, 50) square INT_MAX with
  | Found _ _ => (0 < length square)%nat
  | NotFound => False
  | BadIndex => square = []
  end.
Proof.
  apply (X21_findPoint_at_sentinel (50, 50) square INT_MAX). reflexivity.
Defined.

(** ** A lone closed shape *)

Lemma AppendAll_outline (pts : list Point) :
  forall c : SHAPE_LINE_CHAIN,
  AppendAll pts (-1) [[c]] = [[mkChain (CPoints c ++ pts) (IsClosed c)]].
Proof.
  induction pts as [|pt pts IH]; intros c.
  - simpl. rewrite app_nil_r. destruct c. reflexivity.
  - change (AppendAll (pt :: pts) (-1) [[c]])
      with (AppendAll pts (-1) [[chain_append pt c]]).
    rewrite IH. unfold chain_append. simpl. rewrite <- app_assoc. reflexivity.
Qed.

(** X22: a list of one rectangle or one polygon primitive is converted
    without a search and without regard to the tolerance: the outline is
    the corners of the rectangle in their stored order, or the vertices of
    the polygon placed with its parent, and the call returns what the
    collision check makes of that outline. *)
Theorem X22_lone_closed_shape (G : GEOMETRY) (graphic : DRAWSEGMENT)
    (aTolerance : Z) :
  GetShape graphic = S_RECT \/ GetShape graphic = S_POLYGON ->
  ConvertOutlineToPolygon G [graphic] [] aTolerance
  = post_validation
      (mkState [[mkChain (fast_path_points G graphic) true]] [] [] None true O O).
Proof.
  intros Hshape.
  assert (Hx : (find_xmin G [graphic] aTolerance).2 = O).
  { pose proof (find_xmin_in_range G [graphic] aTolerance ltac:(discriminate))
      as H.
    simpl in H. lia. }
  unfold ConvertOutlineToPolygon. rewrite Hx.
  cbn [segList initial_state lookup list_lookup delete list_delete set_segList].
  unfold build_outline, fast_path_points.
  destruct Hshape as [Hs|Hs]; rewrite Hs;
    cbn [aPolygons set_segList initial_state];
    unfold NewOutline; simpl app; rewrite AppendAll_outline;
    reflexivity.
Qed.

Lemma X22_lone_closed_shape_witness :
  ConvertOutlineToPolygon still_geometry [rectangle (0, 0) (5, 5)] [] INT_MAX
  = post_validation
      (mkState [[mkChain (fast_path_points still_geometry
                                           (rectangle (0, 0) (5, 5))) true]]
               [] [] None true O O).
Proof.
  apply (X22_lone_closed_shape still_geometry (rectangle (0, 0) (5, 5)) INT_MAX).
  left. reflexivity.
Defined.
